(** * mkdocs/toc.py: the per-page table of contents

    A shallow embedding of [mkdocs/toc.py].  The module turns the HTML that
    the markdown [toc] extension generates into a forest of [AnchorLink]
    objects.  Python objects are mutable and shared ([parents] holds
    references to nodes that already sit in [ret] or in some [children]
    list), so the embedding keeps an explicit object store: an [AnchorLink]
    is a cell of the store, and [children], [parents] and [ret] hold
    addresses.  Exceptions are values of an error monad. *)

From Stdlib Require Import Ascii.
From stdpp Require Import gmap strings list.

(** ** Python values used by the module *)

(** The exceptions the statements of [toc.py] can raise.  [KeyError] is the
    one the source catches; [Dangling] is a model-only error for a reference
    to an object that is not in the store. *)
Inductive exn := TypeError | KeyError | IndexError | Dangling.

Inductive result (A : Type) :=
| Ok (a : A)
| Raise (e : exn).
Arguments Ok {A} a.
Arguments Raise {A} e.

Definition bind {A B} (r : result A) (k : A → result B) : result B :=
  match r with
  | Ok a => k a
  | Raise e => Raise e
  end.

Notation "x ←! r ; k" := (bind r (λ x, k))
  (at level 20, r at level 100, k at level 200, right associativity,
   format "x  ←!  r ;  '/' k").

(** Line feed and the double quote, for writing HTML literals. *)
Definition nl : string := String "010"%char EmptyString.
Definition dq : string := String "034"%char EmptyString.

(** [str(x)] for a value that is a string or [None]. *)
Definition pystr (v : option string) : string :=
  match v with
  | Some s => s
  | None => "None"
  end.

(** [s * n] on strings. *)
Fixpoint str_repeat (s : string) (n : nat) : string :=
  match n with
  | 0 => ""
  | S n' => s +:+ str_repeat s n'
  end.

(** [line.startswith(p)] *)
Fixpoint startswith (p s : string) : bool :=
  match p, s with
  | EmptyString, _ => true
  | String a p', String b s' => if Ascii.eqb a b then startswith p' s' else false
  | String _ _, EmptyString => false
  end.

(** [line.endswith(p)]: [p] is the last [len(p)] characters of [line]. *)
Definition endswith (p s : string) : bool :=
  if decide (String.length p ≤ String.length s)
  then String.eqb (String.substring (String.length s - String.length p)
                                    (String.length p) s) p
  else false.

(** The line boundaries of [str.splitlines] among the characters below 256:
    LF, VT, FF, CR, FS, GS, RS and NEL. *)
Definition is_linebreak (c : ascii) : bool :=
  match nat_of_ascii c with
  | 10 | 11 | 12 | 13 | 28 | 29 | 30 | 133 => true
  | _ => false
  end.

(** [s.splitlines()]: [cur] is the line being read, in reverse; CR LF is one
    boundary; no empty line follows a final boundary. *)
Fixpoint splitlines_from (cur : string) (s : string) : list string :=
  match s with
  | EmptyString => if decide (cur = "") then [] else [cur]
  | String c s' =>
      if is_linebreak c then
        match c, s' with
        | "013"%char, String "010"%char s'' => cur :: splitlines_from "" s''
        | _, _ => cur :: splitlines_from "" s'
        end
      else splitlines_from (cur +:+ String c "") s'
  end.

Definition splitlines (s : string) : list string := splitlines_from "" s.

(** [l[2:-2]] *)
Definition slice_2_m2 {A} (l : list A) : list A :=
  drop 2 (take (length l - 2) l).

(** [dict(pairs)]: a later pair replaces an earlier one with the same key. *)
Definition dict (pairs : list (string * option string))
  : gmap string (option string) :=
  foldl (λ m kv, <[kv.1 := kv.2]> m) ∅ pairs.

(** ** The events of [HTMLParser]

    [HTMLParser.feed] scans its argument and calls one handler method per
    piece of markup.  An [event] is one such call; [attrs] is the list of
    (name, value) pairs of a start tag, with value [None] for an attribute
    written without [=]. *)
Inductive event :=
| StartTag (tag : string) (attrs : list (string * option string))
| StartEndTag (tag : string) (attrs : list (string * option string))
| EndTag (tag : string)
| Data (data : string)
| CharRef (name : string)
| EntityRef (name : string)
| Comment (data : string)
| Decl (decl : string)
| PI (data : string)
| UnknownDecl (data : string).

(** ** class TOCParser *)

Module TOCParser.

(** The instance attributes [in_anchor], [attrs] and [title] ([links] is
    never read and is left out).  [attrs] is [None] until an anchor
    opens. *)
Record t := mk {
  in_anchor : bool;
  attrs : option (gmap string (option string));
  title : string
}.

(** [__init__].  It also turns [convert_charrefs] off where the attribute
    exists, so that the scanner reports references through
    [handle_charref] and [handle_entityref] in every version. *)
Definition init : t :=
  {| in_anchor := false; attrs := None; title := "" |}.

Definition handle_starttag (self : t) (tag : string)
    (ats : list (string * option string)) : t :=
  if negb (in_anchor self) then
    if String.eqb tag "a" then
      {| in_anchor := true; attrs := Some (dict ats); title := title self |}
    else self
  else self.

Definition handle_endtag (self : t) (tag : string) : t :=
  if String.eqb tag "a" then
    {| in_anchor := false; attrs := attrs self; title := title self |}
  else self.

Definition handle_data (self : t) (data : string) : t :=
  if in_anchor self then
    {| in_anchor := in_anchor self; attrs := attrs self;
       title := title self +:+ data |}
  else self.

Definition handle_entityref (self : t) (ref : string) : t :=
  handle_data self ("&" +:+ ref +:+ ";").

Definition handle_charref (self : t) (ref : string) : t :=
  handle_entityref self ("#" +:+ ref).

(** The handlers [TOCParser] inherits: [handle_startendtag] calls
    [handle_starttag] and then [handle_endtag]; the handlers of comments,
    declarations and processing instructions do nothing. *)
Definition handle_startendtag (self : t) (tag : string)
    (ats : list (string * option string)) : t :=
  handle_endtag (handle_starttag self tag ats) tag.

Definition dispatch (self : t) (e : event) : t :=
  match e with
  | StartTag tag ats => handle_starttag self tag ats
  | StartEndTag tag ats => handle_startendtag self tag ats
  | EndTag tag => handle_endtag self tag
  | Data d => handle_data self d
  | CharRef r => handle_charref self r
  | EntityRef r => handle_entityref self r
  | Comment _ | Decl _ | PI _ | UnknownDecl _ => self
  end.

(** The state of a parser after the handler calls [es]. *)
Definition run_events (self : t) (es : list event) : t :=
  foldl dispatch self es.

End TOCParser.

(** ** The scanner of the standard library

    [HTMLParser] is not part of this repository.  The theorems below hold
    for every scanner, that is, for every function from a line to the list
    of handler calls it makes.  The examples run on [HTMLParser.feed], a
    model of [html.parser.HTMLParser.goahead] with [convert_charrefs] off,
    written after the regular expressions of CPython's [html/parser.py],
    for lines made of start tags, end tags, text, character references and
    entity references.  As in the library, markup that is cut off by the end
    of the line stays in the buffer and produces no call, since [close] is
    never called.  Outside the model: comments, declarations and processing
    instructions (the model stops scanning at [<!] and [<?]), the content
    of [script] and [style] (it stops after their start tag), character
    references inside attribute values (kept as written), and letters
    beyond ASCII in tag and attribute names (not lowered). *)
Module HTMLParser.

Definition code (c : ascii) : nat := nat_of_ascii c.

Definition is_upper (c : ascii) : bool :=
  (65 <=? code c) && (code c <=? 90).
Definition is_alpha (c : ascii) : bool :=
  is_upper c || ((97 <=? code c) && (code c <=? 122)).
Definition is_digit (c : ascii) : bool :=
  (48 <=? code c) && (code c <=? 57).
Definition is_alnum (c : ascii) : bool := is_alpha c || is_digit c.
Definition is_hexdigit (c : ascii) : bool :=
  is_digit c || ((65 <=? code c) && (code c <=? 70))
             || ((97 <=? code c) && (code c <=? 102)).
(** [\s] : space, TAB, LF, VT, FF, CR *)
Definition is_space (c : ascii) : bool :=
  (code c =? 32) || ((9 <=? code c) && (code c <=? 13)).
Definition is_char (d c : ascii) : bool := Ascii.eqb d c.

Definition lower_char (c : ascii) : ascii :=
  if is_upper c then ascii_of_nat (code c + 32) else c.

Fixpoint lower (s : string) : string :=
  match s with
  | EmptyString => EmptyString
  | String c s' => String (lower_char c) (lower s')
  end.

(** The longest prefix whose characters satisfy [p], and the rest. *)
Fixpoint span (p : ascii → bool) (s : string) : string * string :=
  match s with
  | String c s' =>
      if p c then let '(a, b) := span p s' in (String c a, b)
      else (EmptyString, s)
  | EmptyString => (EmptyString, EmptyString)
  end.

(** [s.find(c)]: the text before the first [c] and the text after it. *)
Fixpoint split_at (c : ascii) (s : string) : option (string * string) :=
  match s with
  | EmptyString => None
  | String d s' =>
      if Ascii.eqb c d then Some (EmptyString, s')
      else match split_at c s' with
           | Some (a, b) => Some (String d a, b)
           | None => None
           end
  end.

Definition skip_space (s : string) : string := (span is_space s).2.

(** [tagfind_tolerant]: a letter, then anything but white space, [/],
    [>] and NUL. *)
Definition is_tagname_char (c : ascii) : bool :=
  negb (is_space c || is_char "/" c || is_char ">" c || (code c =? 0)).

(** [attrfind_tolerant]: the name stops at white space, [/], [=], [>]. *)
Definition is_attrname_char (c : ascii) : bool :=
  negb (is_space c || is_char "/" c || is_char "=" c || is_char ">" c).

(** The value after [=]: quoted with either quote, or bare up to white
    space or [>].  A quote that is never closed is outside the model. *)
Definition attr_value (s : string) : option (string * string) :=
  match s with
  | String q s' =>
      if is_char "034" q || is_char "'" q then split_at q s'
      else Some (span (λ c, negb (is_space c || is_char ">" c)) s)
  | EmptyString => Some (EmptyString, EmptyString)
  end.

(** The attributes of a start tag up to its closing [>] or [/>]: the
    pairs read, whether the tag closes itself, and the text after it. *)
Fixpoint parse_attrs (fuel : nat) (s : string)
    (acc : list (string * option string))
  : option (list (string * option string) * bool * string) :=
  match fuel with
  | 0 => None
  | S fuel' =>
      match skip_space s with
      | EmptyString => None
      | String ">" rest => Some (acc, false, rest)
      | String "/" (String ">" rest) => Some (acc, true, rest)
      | String "/" rest => parse_attrs fuel' rest acc
      | String c rest =>
          let '(name1, after) := span is_attrname_char rest in
          let name := String c name1 in
          match skip_space after with
          | String "=" _ =>
              let '(_, v) := span (is_char "=") (skip_space after) in
              match attr_value (skip_space v) with
              | Some (val, rest') =>
                  parse_attrs fuel' rest' (acc ++ [(lower name, Some val)])
              | None => None
              end
          | _ => parse_attrs fuel' after (acc ++ [(lower name, None)])
          end
      end
  end.

(** [parse_starttag], called on the text after [<]. *)
Definition parse_starttag (s : string) : option (event * string) :=
  let '(name, after) := span is_tagname_char s in
  match parse_attrs (S (String.length after)) after [] with
  | Some (ats, true, rest) => Some (StartEndTag (lower name) ats, rest)
  | Some (ats, false, rest) => Some (StartTag (lower name) ats, rest)
  | None => None
  end.

(** [endtagfind]: the strict shape of an end tag. *)
Definition is_endname_char (c : ascii) : bool :=
  is_alnum c || is_char "-" c || is_char "." c || is_char ":" c
  || is_char "_" c.

Definition head_is (p : ascii → bool) (s : string) : bool :=
  match s with
  | String c _ => p c
  | EmptyString => false
  end.

(** [parse_endtag], called on the text after [</]: nothing without a
    closing [>]; the strict shape first, then the tolerant one, which
    skips to the first [>] after the name; [</>] is dropped and anything
    else is a bogus comment. *)
Definition parse_endtag (s : string) : option (list event * string) :=
  match split_at ">" s with
  | None => None
  | Some (body, rest) =>
      let '(name, after) := span is_endname_char (skip_space s) in
      if head_is is_alpha name && head_is (is_char ">") (skip_space after)
      then Some ([EndTag (lower name)], rest)
      else
        let '(tname, tafter) := span is_tagname_char s in
        if head_is is_alpha tname then
          match split_at ">" tafter with
          | Some (_, rest') => Some ([EndTag (lower tname)], rest')
          | None => None
          end
        else if decide (body = EmptyString) then Some ([], rest)
        else Some ([Comment body], rest)
  end.

(** [charref]: [&#] is read; digits, or [x] and hexadecimal digits, then
    one character that is not a hexadecimal digit. *)
Definition charref (s : string) : option (string * string) :=
  let '(ds, after) := span is_digit s in
  if negb (String.eqb ds EmptyString) then
    if head_is (λ c, negb (is_hexdigit c)) after then Some (ds, after)
    else None
  else
    match s with
    | String x s' =>
        if is_char "x" x || is_char "X" x then
          let '(hs, after') := span is_hexdigit s' in
          if negb (String.eqb hs EmptyString)
             && head_is (λ c, negb (is_hexdigit c)) after'
          then Some (String x hs, after')
          else None
        else None
    | EmptyString => None
    end.

(** The terminator of a reference is consumed only when it is [;]. *)
Definition after_ref (s : string) : string :=
  match s with
  | String ";" s' => s'
  | _ => s
  end.

Definition is_entname_char (c : ascii) : bool :=
  is_alnum c || is_char "-" c || is_char "." c.

(** The longest proper prefix of [s] that is followed by [-] or [.]. *)
Fixpoint backtrack (s : string) : option (string * string) :=
  match s with
  | EmptyString => None
  | String c s' =>
      match backtrack s' with
      | Some (a, b) => Some (String c a, b)
      | None =>
          if is_char "-" c || is_char "." c then Some (EmptyString, s)
          else None
      end
  end.

(** [entityref]: [&] is read; a letter, then name characters, then one
    character that is not a letter or digit. *)
Definition entityref (s : string) : option (string * string) :=
  match s with
  | String c s' =>
      if is_alpha c then
        let '(name1, after) := span is_entname_char s' in
        match after with
        | String _ _ => Some (String c name1, after)
        | EmptyString =>
            match backtrack name1 with
            | Some (a, b) => Some (String c a, b)
            | None => None
            end
        end
      else None
  | EmptyString => None
  end.

Definition is_text_char (c : ascii) : bool :=
  negb (is_char "<" c || is_char "&" c).

(** The loop of [goahead]; every round consumes at least one character,
    so [fuel] above the length of the text is never used up. *)
Fixpoint goahead (fuel : nat) (rawdata : string) : list event :=
  match fuel with
  | 0 => []
  | S fuel' =>
      match rawdata with
      | EmptyString => []
      | String "<" rest =>
          match rest with
          | EmptyString => []
          | String "/" rest' =>
              match parse_endtag rest' with
              | Some (es, rest'') => es ++ goahead fuel' rest''
              | None => []
              end
          | String "!" _ | String "?" _ => []
          | String d _ =>
              if is_alpha d then
                match parse_starttag rest with
                | Some (e, rest') =>
                    match e with
                    | StartTag "script" _ | StartTag "style" _ => [e]
                    | _ => e :: goahead fuel' rest'
                    end
                | None => []
                end
              else Data "<" :: goahead fuel' rest
          end
      | String "&" (String "#" rest) =>
          match charref rest with
          | Some (name, after) => CharRef name :: goahead fuel' (after_ref after)
          | None =>
              match split_at ";" rest with
              | Some _ => [Data "&#"]
              | None => []
              end
          end
      | String "&" rest =>
          match entityref rest with
          | Some (name, after) =>
              EntityRef name :: goahead fuel' (after_ref after)
          | None =>
              if head_is is_alpha rest then []
              else match rest with
                   | EmptyString => []
                   | _ => Data "&" :: goahead fuel' rest
                   end
          end
      | _ =>
          let '(text, rest) := span is_text_char rawdata in
          Data text :: goahead fuel' rest
      end
  end.

(** [parser.feed(line)] on a new parser: the handler calls, in order. *)
Definition feed (line : string) : list event :=
  goahead (S (String.length line)) line.

End HTMLParser.

(** ** class AnchorLink *)

(** A reference to an [AnchorLink] object: its index in the store. *)
Abbreviation addr := nat.

Module AnchorLink.

(** The attributes of one object.  [active] is not set by [__init__]:
    [None] stands for an object without that attribute. *)
Record t := mk {
  title : string;
  url : option string;
  children : list addr;
  active : option bool
}.

(** [__init__] *)
Definition init (title : string) (url : option string) : t :=
  {| title := title; url := url; children := []; active := None |}.

(** [self.children.append(nav)] *)
Definition children_append (self : t) (nav : addr) : t :=
  {| title := title self; url := url self;
     children := children self ++ [nav]; active := active self |}.

(** [self.active = v] *)
Definition set_active (self : t) (v : bool) : t :=
  {| title := title self; url := url self;
     children := children self; active := Some v |}.

(** [indent_print]: [fuel] bounds the depth of the recursion through
    [children]; [None] when it runs out or a reference is dangling. *)
Fixpoint indent_print (fuel : nat) (h : list t) (self : addr) (depth : nat)
  : option string :=
  match fuel with
  | 0 => None
  | S fuel' =>
      n ← h !! self;
      let indent := str_repeat "    " depth in
      let ret := indent +:+ title n +:+ " - " +:+ pystr (url n) +:+ nl in
      foldl (λ acc item,
               r ← acc; s ← indent_print fuel' h item (S depth);
               Some (r +:+ s))
            (Some ret) (children n)
  end.

(** [__str__] *)
Definition str (fuel : nat) (h : list t) (self : addr) : option string :=
  indent_print fuel h self 0.

End AnchorLink.

(** The object store: address [a] is the [a]-th object created. *)
Abbreviation heap := (list AnchorLink.t).

(** ** Python list and store primitives *)

(** [if l:] *)
Definition truthy {A} (l : list A) : bool :=
  match l with
  | [] => false
  | _ => true
  end.

(** [l[-1]] *)
Definition getitem_last {A} (l : list A) : result A :=
  match last l with
  | Some x => Ok x
  | None => Raise IndexError
  end.

(** [l[0]] *)
Definition getitem_first {A} (l : list A) : result A :=
  match l with
  | x :: _ => Ok x
  | [] => Raise IndexError
  end.

(** [l.pop()]: the list left. *)
Definition pop {A} (l : list A) : result (list A) :=
  match l with
  | [] => Raise IndexError
  | _ => Ok (removelast l)
  end.

(** [d[k]] where [d] may be [None]. *)
Definition getitem_attrs (d : option (gmap string (option string)))
    (k : string) : result (option string) :=
  match d with
  | None => Raise TypeError
  | Some m =>
      match m !! k with
      | Some v => Ok v
      | None => Raise KeyError
      end
  end.

(** Reading the object behind a reference. *)
Definition deref (h : heap) (a : addr) : result AnchorLink.t :=
  match h !! a with
  | Some n => Ok n
  | None => Raise Dangling
  end.

(** ** _parse_html_table_of_contents *)

(** The local variables of the loop and the objects created so far.
    [parents] is a Python list: its last element is the top of the stack. *)
Record builder := mkBuilder {
  store : heap;
  parents : list addr;
  ret : list addr
}.

Definition builder_init : builder :=
  {| store := []; parents := []; ret := [] |}.

(** What the function returns: the list [ret], with the store its
    references point into. *)
Record TableOfContents := mkTableOfContents {
  objects : heap;
  items : list addr
}.

Section Parse.

(** The scanner: the handler calls [parser.feed(line)] makes. *)
Variable feed : string → list event.

(** [parser = TOCParser(); parser.feed(line)] *)
Definition parse_line (line : string) : TOCParser.t :=
  TOCParser.run_events TOCParser.init (feed line).

(** The body of [for line in lines]. *)
Definition loop_body (b : builder) (line : string) : result builder :=
  let parser := parse_line line in
  if negb (String.eqb (TOCParser.title parser) "") then
    match getitem_attrs (TOCParser.attrs parser) "href" with
    | Raise KeyError => Ok b
    | Raise e => Raise e
    | Ok href =>
        let title := TOCParser.title parser in
        let nav := length (store b) in
        let h := store b ++ [AnchorLink.init title href] in
        b1 ←! (if truthy (parents b) then
                 p ←! getitem_last (parents b);
                 n ←! deref h p;
                 Ok {| store := <[p := AnchorLink.children_append n nav]> h;
                       parents := parents b; ret := ret b |}
               else
                 Ok {| store := h; parents := parents b;
                       ret := ret b ++ [nav] |});
        if endswith "<ul>" line then
          Ok {| store := store b1; parents := parents b1 ++ [nav];
                ret := ret b1 |}
        else Ok b1
    end
  else if startswith "</ul>" line then
    if truthy (parents b) then
      ps ←! pop (parents b);
      Ok {| store := store b; parents := ps; ret := ret b |}
    else Ok b
  else Ok b.

(** [for line in lines: ...] *)
Fixpoint for_lines (b : builder) (lines : list string) : result builder :=
  match lines with
  | [] => Ok b
  | line :: lines' => b' ←! loop_body b line; for_lines b' lines'
  end.

(** [if ret: ret[0].active = True] and [return ret] *)
Definition mark_first (b : builder) : result TableOfContents :=
  if truthy (ret b) then
    r ←! getitem_first (ret b);
    n ←! deref (store b) r;
    Ok {| objects := <[r := AnchorLink.set_active n true]> (store b);
          items := ret b |}
  else Ok {| objects := store b; items := ret b |}.

Definition _parse_html_table_of_contents (html : string)
  : result TableOfContents :=
  let lines := slice_2_m2 (splitlines html) in
  b ←! for_lines builder_init lines;
  mark_first b.

End Parse.

(** ** class TableOfContents *)

(** [TableOfContents(html)] *)
Definition TableOfContents_init (feed : string → list event) (html : string)
  : result TableOfContents :=
  _parse_html_table_of_contents feed html.

(** [__str__]: the concatenation of [str(item)] over the items. *)
Definition TableOfContents_str (toc : TableOfContents) : option string :=
  foldl (λ acc item,
           r ← acc;
           s ← AnchorLink.str (length (objects toc)) (objects toc) item;
           Some (r +:+ s))
        (Some "") (items toc).

(** ** The tree behind a reference *)

(** An [AnchorLink] with the objects of its [children] in place of the
    references. *)
#[warnings="-register-all"]
Inductive tree :=
| Node (title : string) (url : option string) (children : list tree)
       (active : option bool).

(** Following the references from [a], at most [fuel] levels deep. *)
Fixpoint reify (fuel : nat) (h : heap) (a : addr) : option tree :=
  match fuel with
  | 0 => None
  | S fuel' =>
      n ← h !! a;
      cs ← mapM (reify fuel' h) (AnchorLink.children n);
      Some (Node (AnchorLink.title n) (AnchorLink.url n) cs (AnchorLink.active n))
  end.

(** The forest of a table of contents.  A child is created after its
    parent, so no path is longer than the store. *)
Definition forest (toc : TableOfContents) : option (list tree) :=
  mapM (reify (length (objects toc)) (objects toc)) (items toc).

(** ** Measures on trees *)

(** The number of nodes of a tree: the node and all its descendants. *)
Fixpoint tree_size (t : tree) : nat :=
  match t with
  | Node _ _ cs _ => S (list_sum (map tree_size cs))
  end.

Definition forest_size (F : list tree) : nat := list_sum (map tree_size F).

(** The [active] attributes of a tree, the root first, then the children's
    from left to right. *)
Fixpoint flags (t : tree) : list (option bool) :=
  match t with
  | Node _ _ cs a => a :: concat (map flags cs)
  end.

Definition forest_flags (F : list tree) : list (option bool) :=
  concat (map flags F).

(** The first top-level node is active and every other node of the forest
    has the flag [dflt]. *)
Definition first_only_active (dflt : option bool) (F : list tree) : Prop :=
  match F with
  | [] => True
  | Node _ _ cs a :: rest =>
      a = Some true ∧
      Forall (λ f, f = dflt) (forest_flags cs ++ forest_flags rest)
  end.

(** ** Rendering a tree *)

Definition concat_str (l : list string) : string := foldr String.append "" l.



(** ** Valid anchor lines *)

Definition has_href (p : TOCParser.t) : bool :=
  match TOCParser.attrs p with
  | Some m => bool_decide (is_Some (m !! "href"))
  | None => false
  end.

(** A line is a valid anchor when its parser ends with a title that is not
    empty and with an [href] among the attributes. *)
Definition valid_anchor (feed : string → list event) (line : string) : bool :=
  negb (String.eqb (TOCParser.title (parse_line feed line)) "")
  && has_href (parse_line feed line).

(** ** The reading "only the first anchor of a line is honoured"

    The attributes of the first anchor start tag among the handler calls of
    a line, and the text between that tag and the end tag after it. *)
Definition is_anchor (tag : string) : bool := String.eqb tag "a".

Fixpoint first_anchor_attrs (es : list event)
  : option (list (string * option string)) :=
  match es with
  | [] => None
  | StartTag tag ats :: es' | StartEndTag tag ats :: es' =>
      if is_anchor tag then Some ats else first_anchor_attrs es'
  | _ :: es' => first_anchor_attrs es'
  end.

Fixpoint text_to_close (es : list event) : string :=
  match es with
  | [] => ""
  | EndTag tag :: es' => if is_anchor tag then "" else text_to_close es'
  | Data d :: es' => d +:+ text_to_close es'
  | CharRef r :: es' => "&#" +:+ r +:+ ";" +:+ text_to_close es'
  | EntityRef r :: es' => "&" +:+ r +:+ ";" +:+ text_to_close es'
  | _ :: es' => text_to_close es'
  end.

Fixpoint first_anchor_text (es : list event) : string :=
  match es with
  | [] => ""
  | StartTag tag _ :: es' =>
      if is_anchor tag then text_to_close es' else first_anchor_text es'
  | StartEndTag tag _ :: es' =>
      if is_anchor tag then "" else first_anchor_text es'
  | _ :: es' => first_anchor_text es'
  end.

Definition first_anchor_honoured (es : list event) : Prop :=
  let p := TOCParser.run_events TOCParser.init es in
  TOCParser.attrs p = dict <$> first_anchor_attrs es ∧
  TOCParser.title p = first_anchor_text es.

(** ** Sample inputs *)

Definition join_lines (ls : list string) : string :=
  foldr (λ l s, l +:+ nl +:+ s) "" ls.

Definition anchor_item (href title : string) : string :=
  "<li><a href=" +:+ dq +:+ href +:+ dq +:+ ">" +:+ title +:+ "</a>".

(** The middle lines of the end-to-end scenario. *)
Definition scenario_lines : list string :=
  [ anchor_item "#a" "A" +:+ "</li>";
    anchor_item "#b" "B" +:+ "<ul>";
    anchor_item "#c" "C" +:+ "</li>";
    "</ul></li>" ].

(** The wrapper the markdown extension puts around the list. *)
Definition wrap (mid : list string) : string :=
  join_lines (["<div class=" +:+ dq +:+ "toc" +:+ dq +:+ ">"; "<ul>"]
              ++ mid ++ ["</ul>"; "</div>"]).

Definition scenario_html : string := wrap scenario_lines.

Definition scenario_forest : list tree :=
  [ Node "A" (Some "#a") [] (Some true);
    Node "B" (Some "#b") [Node "C" (Some "#c") [] None] None ].

(** The store the end-to-end scenario leaves. *)
Definition scenario_toc : TableOfContents :=
  {| objects :=
       [ AnchorLink.mk "A" (Some "#a") [] (Some true);
         AnchorLink.mk "B" (Some "#b") [2] None;
         AnchorLink.mk "C" (Some "#c") [] None ];
     items := [0; 1] |}.

Definition scenario_rendering : string :=
  "A - #a" +:+ nl +:+ "B - #b" +:+ nl +:+ "    C - #c" +:+ nl.

(** An anchor with a title and no href, on a line that ends a list item
    by opening a nested list. *)
Definition no_href_line : string := "<li><a>Title</a><ul>".

(** A line with two anchors, one after the other. *)
Definition two_anchor_line : string :=
  anchor_item "#x" "X" +:+ "<a href=" +:+ dq +:+ "#y" +:+ dq +:+ ">Y</a></li>".

(** An anchor whose href is the empty string. *)
Definition empty_href_line : string := anchor_item "" "T" +:+ "</li>".

(** ** Objects and trees

    [repr h a t]: following the references from address [a] in store [h]
    gives the tree [t], and every child was created after its parent. *)
#[warnings="-register-all"]
Inductive repr (h : heap) : addr → tree → Prop :=
| repr_node a n ts :
    h !! a = Some n →
    Forall2 (λ c t, a < c ∧ repr h c t) (AnchorLink.children n) ts →
    repr h a (Node (AnchorLink.title n) (AnchorLink.url n) ts
                   (AnchorLink.active n)).

(** [spine h ps roots F]: the references [roots] denote the forest [F], and
    the stack [ps] (bottom first) runs down its right edge: the bottom of
    the stack is the last root, the next entry is its last child, and so
    on.  The trees to the left of an open parent [p] are complete and lie
    in the part of the store created before [p]. *)
Fixpoint spine (h : heap) (ps roots : list addr) (F : list tree) : Prop :=
  match ps with
  | [] => Forall2 (repr h) roots F
  | p :: ps' =>
      ∃ roots0 F0 n ts,
        roots = roots0 ++ [p] ∧
        F = F0 ++ [Node (AnchorLink.title n) (AnchorLink.url n) ts
                        (AnchorLink.active n)] ∧
        Forall2 (repr (take p h)) roots0 F0 ∧
        h !! p = Some n ∧
        Forall (λ c, p < c) (AnchorLink.children n) ∧
        spine h ps' (AnchorLink.children n) ts
  end.

(** Text is only accumulated inside an anchor, and opening an anchor sets
    [attrs]: a parser with a title has attributes. *)
Definition parser_ok (p : TOCParser.t) : Prop :=
  (TOCParser.in_anchor p = true ∨ TOCParser.title p ≠ "") →
  is_Some (TOCParser.attrs p).

(** The first object created is the first item of [ret]. *)
Definition roots_ok (h : heap) (roots : list addr) : Prop :=
  (roots = [] ∧ h = []) ∨ ∃ rest, roots = 0 :: rest ∧ Forall (lt 0) rest.

(** The invariant of the loop: the store is a forest with one node per
    object, the stack is its right spine, and no object is active yet. *)
Definition inv (b : builder) : Prop :=
  ∃ F, spine (store b) (parents b) (ret b) F ∧
       forest_size F = length (store b) ∧
       Forall (λ n, AnchorLink.active n = None) (store b) ∧
       roots_ok (store b) (ret b).

(** ** The forest as a value

    The same loop on trees instead of objects: the stack of open parents
    becomes a number, the depth at which the next node goes in. *)

(** A new node: no children, no [active] attribute. *)
Definition leaf (title : string) (url : option string) : tree :=
  Node title url [] None.

(** Applying [f] to the last element of a list. *)
Fixpoint on_last {A} (f : A → A) (l : list A) : list A :=
  match l with
  | [] => []
  | [x] => [f x]
  | x :: l' => x :: on_last f l'
  end.

Definition with_children (f : list tree → list tree) (t : tree) : tree :=
  match t with
  | Node title url cs a => Node title url (f cs) a
  end.

(** Appending [nav] to the children of the open parent at depth [d]: to the
    forest itself at depth 0, else below the last tree. *)
Fixpoint attach (d : nat) (nav : tree) (F : list tree) : list tree :=
  match d with
  | 0 => F ++ [nav]
  | S d' => on_last (with_children (attach d' nav)) F
  end.

(** The body of the loop on a forest and the number of open parents. *)
Definition value_step (feed : string → list event)
    (s : list tree * nat) (line : string) : list tree * nat :=
  let parser := parse_line feed line in
  if negb (String.eqb (TOCParser.title parser) "") then
    match getitem_attrs (TOCParser.attrs parser) "href" with
    | Ok href =>
        (attach s.2 (leaf (TOCParser.title parser) href) s.1,
         if endswith "<ul>" line then S s.2 else s.2)
    | Raise _ => s
    end
  else if startswith "</ul>" line then (s.1, pred s.2)
  else s.

(** [ret[0].active = True] *)
Definition mark_root (F : list tree) : list tree :=
  match F with
  | Node title url cs _ :: rest => Node title url cs (Some true) :: rest
  | [] => []
  end.

Definition value_forest (feed : string → list event) (html : string)
  : list tree :=
  mark_root (foldl (value_step feed) ([], 0) (slice_2_m2 (splitlines html))).1.

(** [open_ok d F]: the forest has open parents down to depth [d], each the
    last child of the one above. *)
Fixpoint open_ok (d : nat) (F : list tree) : Prop :=
  match d with
  | 0 => True
  | S d' => ∃ F0 title url cs a, F = F0 ++ [Node title url cs a] ∧ open_ok d' cs
  end.

(** ** The outline of a forest *)

(** The nodes of a tree in document order (a node, then its children from
    left to right), each with its depth, title and url. *)
Fixpoint outline (depth : nat) (t : tree) : list (nat * string * option string) :=
  match t with
  | Node title url cs _ => (depth, title, url) :: concat (map (outline (S depth)) cs)
  end.

Definition forest_outline (F : list tree) : list (nat * string * option string) :=
  concat (map (outline 0) F).

(** The loop with a counter in place of the stack and a flat list in place
    of the tree: a valid anchor line adds one entry at the current depth,
    and the depth goes up after a line ending in [<ul>] and down (not below
    0) at an untitled line starting with [</ul>]. *)
Definition outline_step (feed : string → list event)
    (s : list (nat * string * option string) * nat) (line : string)
  : list (nat * string * option string) * nat :=
  let parser := parse_line feed line in
  if negb (String.eqb (TOCParser.title parser) "") then
    match getitem_attrs (TOCParser.attrs parser) "href" with
    | Ok href =>
        (s.1 ++ [(s.2, TOCParser.title parser, href)],
         if endswith "<ul>" line then S s.2 else s.2)
    | Raise _ => s
    end
  else if startswith "</ul>" line then (s.1, pred s.2)
  else s.

Definition lines_outline (feed : string → list event) (lines : list string)
  : list (nat * string * option string) :=
  (foldl (outline_step feed) ([], 0) lines).1.

(** The number of open parents after [lines]. *)
Definition open_depth (feed : string → list event) (lines : list string) : nat :=
  (foldl (outline_step feed) ([], 0) lines).2.


(** ** Anchors among the handler calls of a line *)

(** No call opens an anchor. *)
Definition no_anchor_open (es : list event) : bool :=
  forallb (λ e, match e with
                | StartTag tag _ | StartEndTag tag _ => negb (is_anchor tag)
                | _ => true
                end) es.

(** No call closes an anchor. *)
Definition no_anchor_close (es : list event) : bool :=
  forallb (λ e, match e with
                | EndTag tag | StartEndTag tag _ => negb (is_anchor tag)
                | _ => true
                end) es.

(** The text a call adds to the title of an open anchor. *)
Definition event_text (e : event) : string :=
  match e with
  | Data d => d
  | CharRef r => "&#" +:+ r +:+ ";"
  | EntityRef r => "&" +:+ r +:+ ";"
  | _ => ""
  end.

Definition events_text (es : list event) : string :=
  concat_str (map event_text es).

(** * Proofs *)

Lemma repr_ind_strong (h : heap) (P : addr → tree → Prop) :
  (∀ a n ts,
      h !! a = Some n →
      Forall2 (λ c t, a < c ∧ repr h c t ∧ P c t) (AnchorLink.children n) ts →
      P a (Node (AnchorLink.title n) (AnchorLink.url n) ts (AnchorLink.active n))) →
  ∀ a t, repr h a t → P a t.
Proof.
  intros step. fix IH 3. intros a t Hr. destruct Hr as [a n ts Hn Hcs].
  apply step; [exact Hn|].
  induction Hcs as [|c t cs ts' [Hlt Hc] _ IHcs]; constructor; auto.
Qed.

Lemma forest_size_app F G : forest_size (F ++ G) = forest_size F + forest_size G.
Proof. unfold forest_size. by rewrite map_app, list_sum_app. Qed.

Lemma forest_flags_app F G : forest_flags (F ++ G) = forest_flags F ++ forest_flags G.
Proof. unfold forest_flags. by rewrite map_app, concat_app. Qed.

(** A tree only reads the store at its root and above: a store that agrees
    there represents the same tree. *)
Lemma repr_frame (h h' : heap) a t :
  repr h a t →
  (∀ i n, a ≤ i → h !! i = Some n → h' !! i = Some n) →
  repr h' a t.
Proof.
  intros Hr. induction Hr as [a n ts Hn Hcs] using repr_ind_strong.
  intros Hag. constructor; [by apply Hag|].
  induction Hcs as [|c t cs ts' (Hlt & _ & IHc) _ IHcs]; constructor; [|done].
  split; [done|]. apply IHc. intros i m Hi. apply Hag. lia.
Qed.

Lemma repr_take (h : heap) k a t : repr (take k h) a t → repr h a t.
Proof.
  intros Hr. apply (repr_frame _ _ _ _ Hr).
  intros i n _ Hi. by apply lookup_take_Some in Hi as [? _].
Qed.

Lemma repr_lookup (h : heap) a t : repr h a t → is_Some (h !! a).
Proof. destruct 1; eauto. Qed.

Lemma reify_S fuel (h : heap) a :
  reify (S fuel) h a =
  n ← h !! a;
  cs ← mapM (reify fuel h) (AnchorLink.children n);
  Some (Node (AnchorLink.title n) (AnchorLink.url n) cs (AnchorLink.active n)).
Proof. reflexivity. Qed.

(** Reading a represented tree back never runs out of fuel. *)
Lemma repr_reify (h : heap) a t :
  repr h a t → ∀ fuel, length h - a ≤ fuel → reify fuel h a = Some t.
Proof.
  intros Hr. induction Hr as [a n ts Hn Hcs] using repr_ind_strong.
  intros fuel Hfuel. pose proof (lookup_lt_Some _ _ _ Hn) as Hlt.
  destruct fuel as [|fuel]; [lia|]. rewrite reify_S, Hn. simpl.
  assert (mapM (reify fuel h) (AnchorLink.children n) = Some ts) as ->; [|done].
  apply mapM_Some. 
  induction Hcs as [|c t cs ts' (Hc & _ & IHc) _ IHcs]; constructor; [|done].
  apply IHc. lia.
Qed.

(** The flags of a represented tree are those of the objects at or above its root. *)
Lemma repr_flags (h : heap) (P : option bool → Prop) a t :
  repr h a t →
  (∀ i n, a ≤ i → h !! i = Some n → P (AnchorLink.active n)) →
  Forall P (flags t).
Proof.
  intros Hr. induction Hr as [a n ts Hn Hcs] using repr_ind_strong.
  intros HP. simpl. constructor; [by eapply HP|].
  induction Hcs as [|c t cs ts' (Hc & _ & IHc) _ IHcs]; simpl; [constructor|].
  apply Forall_app. split; [|done].
  apply IHc. intros i m Hi. apply HP. lia.
Qed.

(** ** Rendering from the store *)

Lemma append_cons c (s1 s2 : string) : String c s1 +:+ s2 = String c (s1 +:+ s2).
Proof. reflexivity. Qed.

Lemma append_assoc (s1 s2 s3 : string) : (s1 +:+ s2) +:+ s3 = s1 +:+ (s2 +:+ s3).
Proof. induction s1 as [|c s1 IH]; [done|]. by rewrite !append_cons, IH. Qed.

Lemma append_empty_r (s : string) : s +:+ "" = s.
Proof. induction s as [|c s IH]; [done|]. by rewrite append_cons, IH. Qed.





(** ** The open-parent stack is the right spine of the forest *)

Lemma spine_last_ge (h : heap) ps roots F lo q :
  spine h ps roots F → Forall (le lo) roots → last ps = Some q → lo ≤ q.
Proof.
  revert roots F lo. induction ps as [|p ps IH]; intros roots F lo Hs Hlo Hq; [done|].
  destruct Hs as (roots0 & F0 & n & ts & -> & -> & _ & Hn & Hord & Hs).
  apply Forall_app in Hlo as [_ Hp]. rewrite Forall_singleton in Hp.
  rewrite last_cons in Hq. destruct (last ps) as [q'|] eqn:Hl.
  - injection Hq as ->. specialize (IH _ _ (S p) Hs). 
    assert (S p ≤ q); [|lia]. apply IH; [|done].
    eapply Forall_impl; [exact Hord|]. simpl. lia.
  - by injection Hq as ->.
Qed.

Lemma spine_last_lookup (h : heap) ps roots F q :
  spine h ps roots F → last ps = Some q → is_Some (h !! q).
Proof.
  revert roots F. induction ps as [|p ps IH]; intros roots F Hs Hq; [done|].
  destruct Hs as (roots0 & F0 & n & ts & -> & -> & _ & Hn & Hord & Hs).
  rewrite last_cons in Hq. destruct (last ps) as [q'|] eqn:Hl.
  - injection Hq as ->. by eapply IH.
  - injection Hq as ->. eauto.
Qed.

Lemma Forall2_repr_take (h : heap) k roots F :
  Forall2 (repr (take k h)) roots F → Forall2 (repr h) roots F.
Proof.
  intros H. eapply Forall2_impl; [exact H|]. intros. by eapply repr_take.
Qed.

(** Closing every open parent leaves a forest of complete trees. *)
Lemma spine_close (h : heap) ps roots F :
  spine h ps roots F → Forall2 (repr h) roots F.
Proof.
  revert roots F. induction ps as [|p ps IH]; intros roots F Hs; [done|].
  destruct Hs as (roots0 & F0 & n & ts & -> & -> & H0 & Hn & Hord & Hs).
  apply Forall2_app; [by eapply Forall2_repr_take|].
  constructor; [|constructor]. constructor; [done|].
  apply IH in Hs. clear -Hs Hord.
  induction Hs; constructor; inversion Hord; subst; auto.
Qed.

(** [parents.pop()] *)
Lemma spine_pop (h : heap) ps q roots F :
  spine h (ps ++ [q]) roots F → spine h ps roots F.
Proof.
  revert roots F. induction ps as [|p ps IH]; intros roots F Hs.
  - by apply spine_close in Hs.
  - destruct Hs as (roots0 & F0 & n & ts & -> & -> & H0 & Hn & Hord & Hs).
    exists roots0, F0, n, ts. eauto 10.
Qed.

Lemma spine_head_le_last (h : heap) p ps roots F q :
  spine h (p :: ps) roots F → last (p :: ps) = Some q → p ≤ q.
Proof.
  intros (roots0 & F0 & n & ts & -> & -> & _ & Hn & Hord & Hs) Hq.
  rewrite last_cons in Hq. destruct (last ps) as [q'|] eqn:Hl.
  - injection Hq as ->. assert (S p ≤ q); [|lia].
    eapply spine_last_ge; [exact Hs| |done].
    eapply Forall_impl; [exact Hord|]. simpl. lia.
  - by injection Hq as ->.
Qed.

Lemma Forall2_repr_frame (h h' : heap) lo roots F :
  Forall (le lo) roots →
  Forall2 (repr h) roots F →
  (∀ i n, lo ≤ i → h !! i = Some n → h' !! i = Some n) →
  Forall2 (repr h') roots F.
Proof.
  intros Hlo Hr Hag. induction Hr as [|r t roots F Hr _ IH]; [constructor|].
  apply Forall_cons in Hlo as [Hr0 Hlo]. constructor; [|by apply IH].
  apply (repr_frame _ _ _ _ Hr). intros i n Hi. apply Hag. lia.
Qed.

Lemma on_last_snoc {A} (f : A → A) l x : on_last f (l ++ [x]) = l ++ [f x].
Proof.
  induction l as [|y l IH]; [done|]. simpl. rewrite IH.
  by destruct l.
Qed.

(** Creating object [nav] and appending it below the top of the stack (to
    [roots] when the stack is empty): the forest is the old one with the new leaf
    attached at the depth of the stack, and the stack stays a spine with
    and without [nav] pushed. *)
Lemma spine_attach (h h' : heap) nav new lo ps roots roots' F :
  nav = length h →
  h' !! nav = Some new →
  AnchorLink.children new = [] →
  Forall (le lo) roots →
  (∀ i, lo ≤ i → i < length h → last ps ≠ Some i → h' !! i = h !! i) →
  match last ps with
  | None => roots' = roots ++ [nav]
  | Some q =>
      roots' = roots ∧
      ∃ n, h !! q = Some n ∧
           h' !! q = Some (AnchorLink.children_append n nav)
  end →
  spine h ps roots F →
  ∃ F', F' = attach (length ps)
               (Node (AnchorLink.title new) (AnchorLink.url new) []
                     (AnchorLink.active new)) F ∧
        forest_size F' = S (forest_size F) ∧
        spine h' ps roots' F' ∧
        spine h' (ps ++ [nav]) roots' F'.
Proof.
  intros -> Hnew Hleaf. revert lo roots roots' F.
  induction ps as [|p ps IH]; intros lo roots roots' F Hlo Hag Hlast Hs.
  - simpl in *. subst roots'.
    assert (∀ k, length h ≤ k → Forall2 (repr (take k h')) roots F) as Hold.
    { intros k Hk. apply (Forall2_repr_frame h _ lo); [done|done|].
      intros i n Hi Hn. pose proof (lookup_lt_Some _ _ _ Hn) as Hlt.
      rewrite lookup_take_lt by lia. by rewrite Hag. }
    exists (F ++ [Node (AnchorLink.title new) (AnchorLink.url new) []
                       (AnchorLink.active new)]).
    split; [done|].
    split; [rewrite forest_size_app; unfold forest_size; simpl; lia|].
    split.
    + apply Forall2_app; [by eapply Forall2_repr_take, (Hold (length h))|].
      constructor; [|constructor]. constructor; [done|].
      rewrite Hleaf. constructor.
    + exists roots, F, new, []. rewrite Hleaf.
      repeat split; [by apply Hold|done|constructor|constructor].
  - pose proof Hs as Hsp.
    destruct Hs as (roots0 & F0 & n & ts & -> & -> & H0 & Hn & Hord & Hs).
    apply Forall_app in Hlo as [Hlo0 Hp]. rewrite Forall_singleton in Hp.
    pose proof (lookup_lt_Some _ _ _ Hn) as Hplt.
    assert (Forall (le (S p)) (AnchorLink.children n)) as Hlo'.
    { eapply Forall_impl; [exact Hord|]. simpl. lia. }
    assert (∃ q, last (p :: ps) = Some q ∧ p ≤ q) as (q & Hq & Hpq).
    { destruct (last (p :: ps)) as [q|] eqn:Hq;
        [|by rewrite last_cons in Hq; destruct (last ps)].
      exists q. split; [done|]. by eapply spine_head_le_last. }
    assert (Forall2 (repr (take p h')) roots0 F0) as H0'.
    { apply (Forall2_repr_frame (take p h) _ lo); [done|done|].
      intros i m Hi [Hm Hip]%lookup_take_Some.
      rewrite lookup_take_lt by done. rewrite Hag; [done|done|lia|].
      rewrite Hq. intros [= ->]. lia. }
    rewrite Hq in Hlast. destruct Hlast as (-> & nq & Hnq & Hnq').
    rewrite last_cons in Hq.
    destruct (last ps) as [q'|] eqn:Hl; [injection Hq as ->|injection Hq as <-].
    + assert (S p ≤ q) as Hlt.
      { eapply spine_last_ge; [exact Hs|done|done]. }
      destruct (IH (S p) (AnchorLink.children n) (AnchorLink.children n) ts)
        as (F' & HF' & Hsize & Hs1 & Hs2); [done| | |done|].
      { intros i Hi Hil Hne. apply Hag; [lia|done|].
        by rewrite last_cons, Hl. }
      { eauto. }
      assert (h' !! p = Some n) as Hn'.
      { rewrite Hag; [done|done|done|]. rewrite last_cons, Hl. intros [= ->]. lia. }
      exists (F0 ++ [Node (AnchorLink.title n) (AnchorLink.url n) F'
                          (AnchorLink.active n)]).
      split; [simpl; by rewrite on_last_snoc, HF'|].
      split.
      { rewrite !forest_size_app. unfold forest_size in *. simpl. lia. }
      split; exists roots0, F0, n, F'; eauto 10.
    + rewrite Hn in Hnq. injection Hnq as <-.
      destruct (IH (S p) (AnchorLink.children n)
                   (AnchorLink.children n ++ [length h]) ts)
        as (F' & HF' & Hsize & Hs1 & Hs2); [done| | |done|].
      { intros i Hi Hil Hne. apply Hag; [lia|done|].
        rewrite last_cons, Hl. intros [= ->]. lia. }
      { done. }
      exists (F0 ++ [Node (AnchorLink.title n) (AnchorLink.url n) F'
                          (AnchorLink.active n)]).
      split; [simpl; by rewrite on_last_snoc, HF'|].
      split.
      { rewrite !forest_size_app. unfold forest_size in *. simpl. lia. }
      assert (Forall (λ c, p < c) (AnchorLink.children n ++ [length h])) as Hord'.
      { apply Forall_app. split; [done|]. by apply Forall_singleton. }
      split; exists roots0, F0, (AnchorLink.children_append n (length h)), F';
        eauto 10.
Qed.

(** The same, counting nodes. *)
Lemma spine_grow (h h' : heap) nav new lo ps roots roots' F :
  nav = length h →
  h' !! nav = Some new →
  AnchorLink.children new = [] →
  Forall (le lo) roots →
  (∀ i, lo ≤ i → i < length h → last ps ≠ Some i → h' !! i = h !! i) →
  match last ps with
  | None => roots' = roots ++ [nav]
  | Some q =>
      roots' = roots ∧
      ∃ n, h !! q = Some n ∧
           h' !! q = Some (AnchorLink.children_append n nav)
  end →
  spine h ps roots F →
  ∃ F', forest_size F' = S (forest_size F) ∧
        spine h' ps roots' F' ∧
        spine h' (ps ++ [nav]) roots' F'.
Proof.
  intros Hnav Hnew Hleaf Hlo Hag Hlast Hs.
  destruct (spine_attach h h' nav new lo ps roots roots' F)
    as (F' & _ & Hsize & Hs1 & Hs2); try done.
  by exists F'.
Qed.

(** ** The parser of one line *)

Lemma handle_data_ok p d : parser_ok p → parser_ok (TOCParser.handle_data p d).
Proof.
  unfold parser_ok, TOCParser.handle_data. intros Hp.
  destruct (TOCParser.in_anchor p) eqn:Hin; simpl; [|by rewrite Hin].
  intros _. apply Hp. by left.
Qed.

Lemma handle_starttag_ok p tag ats :
  parser_ok p → parser_ok (TOCParser.handle_starttag p tag ats).
Proof.
  unfold parser_ok, TOCParser.handle_starttag. intros Hp.
  destruct (TOCParser.in_anchor p) eqn:Hin; simpl; [by rewrite Hin|].
  destruct (String.eqb tag "a"); simpl; [eauto|by rewrite Hin].
Qed.

Lemma handle_endtag_ok p tag :
  parser_ok p → parser_ok (TOCParser.handle_endtag p tag).
Proof.
  unfold parser_ok, TOCParser.handle_endtag. intros Hp.
  destruct (String.eqb tag "a"); simpl; [|done].
  intros [?|?]; [done|]. apply Hp. by right.
Qed.

Lemma dispatch_ok p e : parser_ok p → parser_ok (TOCParser.dispatch p e).
Proof.
  intros Hp. destruct e; simpl; try done;
    unfold TOCParser.handle_startendtag, TOCParser.handle_charref,
      TOCParser.handle_entityref;
    auto using handle_data_ok, handle_starttag_ok, handle_endtag_ok.
Qed.

Lemma run_events_ok p es : parser_ok p → parser_ok (TOCParser.run_events p es).
Proof.
  unfold TOCParser.run_events. revert p.
  induction es as [|e es IH]; intros p Hp; simpl; [done|].
  by apply IH, dispatch_ok.
Qed.

Lemma init_ok : parser_ok TOCParser.init.
Proof. intros [?|?]; done. Qed.

(** ** The invariant of the loop *)

Lemma inv_init : inv builder_init.
Proof.
  exists []. repeat split; simpl; [constructor|constructor|by left].
Qed.

Lemma truthy_last {A} (l : list A) :
  truthy l = match last l with Some _ => true | None => false end.
Proof.
  destruct l as [|x l]; [done|]. simpl truthy. rewrite last_cons.
  by destruct (last l).
Qed.

Lemma pop_snoc {A} (l : list A) x : pop (l ++ [x]) = Ok l.
Proof.
  unfold pop. rewrite removelast_last. by destruct l.
Qed.

#[local] Arguments startswith : simpl never.
#[local] Arguments endswith : simpl never.

Section LoopFacts.

Variable feed : string → list event.

Lemma parse_line_ok line : parser_ok (parse_line feed line).
Proof. apply run_events_ok, init_ok. Qed.

Lemma loop_body_inv b line :
  inv b →
  ∃ b', loop_body feed b line = Ok b' ∧ inv b' ∧
        length (store b') =
        length (store b) + (if valid_anchor feed line then 1 else 0).
Proof.
  intros Hinv. pose proof Hinv as (F & Hs & Hsize & Hact & Hroots).
  unfold loop_body, valid_anchor, has_href.
  pose proof (parse_line_ok line) as Hok.
  destruct (String.eqb_spec (TOCParser.title (parse_line feed line)) "")
    as [Het|Hne]; simpl.
  - (* no title: the line may close a list *)
    destruct (startswith "</ul>" line); [|exists b; split_and!; [done|done|lia]].
    rewrite truthy_last. destruct (last (parents b)) as [q|] eqn:Hl;
      [|exists b; split_and!; [done|done|lia]].
    apply last_Some in Hl as [ps Hps]. rewrite Hps, pop_snoc. simpl.
    eexists; split_and!; [done| |simpl; lia].
    exists F; simpl; rewrite Hps in Hs; split_and!; try done.
    by eapply spine_pop.
  - destruct (Hok (or_intror Hne)) as [m Hm]. rewrite Hm. simpl.
    destruct (m !! "href") as [href|] eqn:Hhref; simpl.
    2:{ exists b; split_and!; [done|done|lia]. }
    set (new := AnchorLink.init (TOCParser.title (parse_line feed line)) href).
    set (nav := length (store b)).
    match goal with |- ∃ b', bind ?c _ = _ ∧ _ => set (alloc := c) end.
    assert (∃ h' roots' F',
               alloc = Ok {| store := h'; parents := parents b; ret := roots' |} ∧
               length h' = S nav ∧ forest_size F' = S (forest_size F) ∧
               spine h' (parents b) roots' F' ∧
               spine h' (parents b ++ [nav]) roots' F' ∧
               Forall (λ n, AnchorLink.active n = None) h' ∧
               roots_ok h' roots') as (h' & roots' & F' & -> & Hlen & HF' & Hs1 & Hs2 & Hact' & Hroots').
    { subst alloc. rewrite truthy_last.
      destruct (last (parents b)) as [q|] eqn:Hl.
      - destruct (spine_last_lookup _ _ _ _ _ Hs Hl) as [nq Hnq].
        pose proof (lookup_lt_Some _ _ _ Hnq) as Hqlt.
        unfold getitem_last, deref. rewrite Hl. simpl.
        rewrite (lookup_app_l_Some _ _ _ _ Hnq). simpl.
        destruct (spine_grow (store b)
                    (<[q := AnchorLink.children_append nq nav]> (store b ++ [new]))
                    nav new 0 (parents b) (ret b) (ret b) F)
          as (F' & HF' & Hs1 & Hs2); try done.
        { rewrite list_lookup_insert_ne by (subst nav; lia).
          by rewrite list_lookup_middle. }
        { apply Forall_forall. lia. }
        { intros i _ Hi Hne'. rewrite list_lookup_insert_ne by congruence.
          by rewrite lookup_app_l. }
        { rewrite Hl. split; [done|]. exists nq. split; [done|].
          apply list_lookup_insert_eq. rewrite length_app. lia. }
        eexists _, _, F'. split_and!; try done.
        + rewrite length_insert, length_app. simpl. lia.
        + apply Forall_insert.
          * apply Forall_app. split; [done|]. by apply Forall_singleton.
          * simpl. by pose proof (Forall_lookup_1 _ _ _ _ Hact Hnq) as Hx.
        + destruct Hroots as [[Hr Hh]|Hr]; [|by right].
          rewrite Hh in Hnq. done.
      - unfold getitem_last.
        destruct (spine_grow (store b) (store b ++ [new])
                    nav new 0 (parents b) (ret b) (ret b ++ [nav]) F)
          as (F' & HF' & Hs1 & Hs2); try done.
        { by rewrite list_lookup_middle. }
        { apply Forall_forall. lia. }
        { intros i _ Hi _. by rewrite lookup_app_l. }
        { by rewrite Hl. }
        eexists _, _, F'. split_and!; try done.
        + rewrite length_app. simpl. lia.
        + apply Forall_app. split; [done|]. by apply Forall_singleton.
        + destruct Hroots as [[Hr Hh]|(rest & Hr & Hrest)].
          * right. exists []. subst nav. rewrite Hr, Hh. done.
          * right. exists (rest ++ [nav]). rewrite Hr. split; [done|].
            apply Forall_app. split; [done|]. apply Forall_singleton.
            apply spine_close in Hs. rewrite Hr in Hs.
            apply Forall2_cons_inv_l in Hs as (t & ? & Ht & _ & _).
            apply repr_lookup in Ht as [? Ht].
            apply lookup_lt_Some in Ht. subst nav. lia. }
    simpl. destruct (endswith "<ul>" line); simpl;
      (eexists; split_and!; [done| |simpl; lia]);
      exists F'; simpl; split_and!; try done; lia.
Qed.

Lemma for_lines_inv lines : ∀ b,
  inv b →
  ∃ b', for_lines feed b lines = Ok b' ∧ inv b' ∧
        length (store b') =
        length (store b) + length (filter (λ l, valid_anchor feed l = true) lines).
Proof.
  induction lines as [|line lines IH]; intros b Hb.
  - exists b. simpl. split_and!; [done|done|lia].
  - destruct (loop_body_inv b line Hb) as (b1 & Hstep & Hb1 & Hlen1).
    destruct (IH b1 Hb1) as (b2 & Hrest & Hb2 & Hlen2).
    exists b2. simpl for_lines. rewrite Hstep. simpl bind.
    split_and!; [done|done|].
    destruct (valid_anchor feed line) eqn:Hv.
    + rewrite filter_cons_True by done. simpl. lia.
    + rewrite filter_cons_False by (by rewrite Hv). lia.
Qed.

Lemma mark_first_inv b :
  inv b →
  ∃ toc F, mark_first b = Ok toc ∧
           Forall2 (repr (objects toc)) (items toc) F ∧
           forest toc = Some F ∧
           forest_size F = length (store b) ∧ first_only_active None F.
Proof.
  intros (F & Hs & Hsize & Hact & Hroots).
  apply spine_close in Hs. unfold mark_first.
  destruct Hroots as [[Hr Hh]|(rest & Hr & Hrest)]; rewrite Hr in *.
  - apply Forall2_nil_inv_l in Hs as ->.
    eexists _, []. simpl. split_and!; done.
  - apply Forall2_cons_inv_l in Hs as (t & Frest & Ht & HFrest & ->).
    inversion Ht as [a n ts Hn Hts]; subst a t. simpl. unfold deref. rewrite Hn. simpl.
    set (h' := <[0 := AnchorLink.set_active n true]> (store b)).
    pose proof (lookup_lt_Some _ _ _ Hn) as Hlt.
    assert (∀ i m, 1 ≤ i → store b !! i = Some m → h' !! i = Some m) as Hag.
    { intros i m Hi Hm. subst h'. rewrite list_lookup_insert_ne by lia. done. }
    assert (Forall2 (repr h') (0 :: rest)
              (Node (AnchorLink.title n) (AnchorLink.url n) ts (Some true) :: Frest))
      as Hrepr.
    { constructor.
      - apply (repr_node h' 0 (AnchorLink.set_active n true)).
        + subst h'. by apply list_lookup_insert_eq.
        + simpl. eapply Forall2_impl; [exact Hts|]. intros c t [Hc Hr'].
          split; [done|]. apply (repr_frame _ _ _ _ Hr').
          intros i m Hi. apply Hag. lia.
      - apply (Forall2_repr_frame (store b) _ 1); [exact Hrest|done|done]. }
    eexists _, _. split; [done|]. split_and!.
    + exact Hrepr.
    + unfold forest. simpl objects. simpl items. apply mapM_Some.
      eapply Forall2_impl; [exact Hrepr|]. intros c t Hc.
      apply repr_reify; [done|lia].
    + done.
    + simpl. split; [done|]. apply Forall_app. split.
      * unfold forest_flags. apply Forall_concat, Forall_fmap. 
        eapply Forall2_Forall_r; [exact Hts|]. 
        eapply Forall_impl; [exact (Forall_true _ _ (λ _, I))|].
        intros c _ t [_ Hc]. simpl. apply (repr_flags _ _ _ _ Hc).
        intros i m _ Hm. by pose proof (Forall_lookup_1 _ _ _ _ Hact Hm).
      * unfold forest_flags. apply Forall_concat, Forall_fmap. 
        eapply Forall2_Forall_r; [exact HFrest|]. 
        eapply Forall_impl; [exact (Forall_true _ _ (λ _, I))|].
        intros c _ t Hc. simpl. apply (repr_flags _ _ _ _ Hc).
        intros i m _ Hm. by pose proof (Forall_lookup_1 _ _ _ _ Hact Hm).
Qed.

(** The function returns for every input; the store it returns is a
    forest with one node per valid anchor line, and only the first
    top-level node carries [active]. *)
Lemma parse_spec html :
  ∃ toc F,
    _parse_html_table_of_contents feed html = Ok toc ∧
    Forall2 (repr (objects toc)) (items toc) F ∧
    forest toc = Some F ∧
    forest_size F =
      length (filter (λ l, valid_anchor feed l = true)
                     (slice_2_m2 (splitlines html))) ∧
    first_only_active None F.
Proof.
  unfold _parse_html_table_of_contents.
  destruct (for_lines_inv (slice_2_m2 (splitlines html)) _ inv_init)
    as (b & -> & Hb & Hlen).
  destruct (mark_first_inv b Hb) as (toc & F & Hm & Hr & HF & Hsize & Hfl).
  exists toc, F. simpl. split_and!; try done. rewrite Hsize, Hlen. done.
Qed.

End LoopFacts.

(** ** Lines, wrappers and single steps of the loop *)

Lemma slice_2_m2_wrap {A} (w1 w2 w3 w4 : A) mid :
  slice_2_m2 ([w1; w2] ++ mid ++ [w3; w4]) = mid.
Proof.
  unfold slice_2_m2. rewrite !length_app.
  replace (length [w1; w2] + (length mid + length [w3; w4]) - 2)
    with (S (S (length mid))) by (simpl; lia).
  simpl. by rewrite take_app_length.
Qed.

Lemma slice_2_m2_short {A} (l : list A) : length l ≤ 4 → slice_2_m2 l = [].
Proof.
  intros Hl. unfold slice_2_m2. apply drop_ge. rewrite length_take. lia.
Qed.

Section Skips.

Variable feed : string → list event.

Lemma for_lines_app l1 l2 b :
  for_lines feed b (l1 ++ l2) =
  (b' ←! for_lines feed b l1; for_lines feed b' l2).
Proof.
  revert b. induction l1 as [|l l1 IH]; intros b; simpl; [done|].
  destruct (loop_body feed b l); simpl; [apply IH|done].
Qed.

(** A line that leaves every builder as it is can be taken out. *)
Lemma for_lines_skip pre line post b :
  (∀ b', loop_body feed b' line = Ok b') →
  for_lines feed b (pre ++ [line] ++ post) = for_lines feed b (pre ++ post).
Proof.
  intros Hskip. rewrite !for_lines_app.
  destruct (for_lines feed b pre); simpl; [|done]. by rewrite Hskip.
Qed.

Lemma loop_body_keyerror b line :
  TOCParser.title (parse_line feed line) ≠ "" →
  getitem_attrs (TOCParser.attrs (parse_line feed line)) "href" = Raise KeyError →
  loop_body feed b line = Ok b.
Proof.
  intros Ht Hk. unfold loop_body. rewrite Hk.
  by destruct (String.eqb_spec (TOCParser.title (parse_line feed line)) "").
Qed.

Lemma loop_body_closed b line :
  TOCParser.title (parse_line feed line) = "" →
  parents b = [] →
  loop_body feed b line = Ok b.
Proof.
  intros Ht Hp. unfold loop_body. rewrite Ht, Hp. simpl.
  by destruct (startswith "</ul>" line).
Qed.

Lemma reachable_inv lines b :
  for_lines feed builder_init lines = Ok b → inv b.
Proof.
  intros Hb. destruct (for_lines_inv feed lines _ inv_init) as (b' & Hb' & Hinv & _).
  congruence.
Qed.


End Skips.

(** * The claims *)

(** C1.  Whatever the two wrapper lines at either end are, the input whose
    middle lines are the four lines of the scenario gives the top-level
    nodes A (url #a, active) and B (url #b) with the single child C (url
    #c), and the table renders as the three lines "A - #a", "B - #b" and
    "    C - #c", each closed by a line feed. *)
Theorem scenario_forest_and_rendering html w1 w2 w3 w4 :
  splitlines html = [w1; w2] ++ scenario_lines ++ [w3; w4] →
  ∃ toc,
    TableOfContents_init HTMLParser.feed html = Ok toc ∧
    forest toc = Some scenario_forest ∧
    TableOfContents_str toc = Some scenario_rendering.
Proof.
  intros Hlines. exists scenario_toc.
  unfold TableOfContents_init, _parse_html_table_of_contents.
  rewrite Hlines, slice_2_m2_wrap.
  split; [|split]; vm_compute; reflexivity.
Qed.

Lemma scenario_forest_and_rendering_witness :
  ∃ toc,
    TableOfContents_init HTMLParser.feed scenario_html = Ok toc ∧
    forest toc = Some scenario_forest ∧
    TableOfContents_str toc = Some scenario_rendering.
Proof.
  apply (scenario_forest_and_rendering scenario_html
           ("<div class=" +:+ dq +:+ "toc" +:+ dq +:+ ">") "<ul>" "</ul>" "</div>").
  vm_compute. reflexivity.
Defined.


(** C3, as the claim states it, fails on the scenario: node B and node C
    have no [active] attribute at all, so their flag is not [false]. *)
Lemma inactive_nodes_are_not_false :
  ∃ toc F,
    TableOfContents_init HTMLParser.feed scenario_html = Ok toc ∧
    forest toc = Some F ∧
    ¬ first_only_active (Some false) F.
Proof.
  exists scenario_toc, scenario_forest.
  split; [vm_compute; reflexivity|]. split; [vm_compute; reflexivity|].
  intros [_ Hall]. apply Forall_cons in Hall as [Hb _]. discriminate Hb.
Qed.

(** C3, amended.  [AnchorLink.__init__] sets no [active] attribute.  After
    construction the first top-level node, if there is one, has [active]
    set to true, and every other node of the tree still has no [active]
    attribute.  An empty forest has no node to mark. *)
Theorem only_first_item_is_active feed html :
  (∀ title url, AnchorLink.active (AnchorLink.init title url) = None) ∧
  ∃ toc F,
    TableOfContents_init feed html = Ok toc ∧
    forest toc = Some F ∧
    first_only_active None F.
Proof.
  split; [done|].
  destruct (parse_spec feed html) as (toc & F & Hp & _ & HF & _ & Hact).
  by exists toc, F.
Qed.

(** C4.  A line whose anchor has a title but no href leaves the builder as
    it is (no object is created, [parents] and [ret] are untouched), so the
    result is the one of the input without that line. *)
Theorem line_without_href_is_skipped feed html html' w1 w2 pre line post w3 w4 :
  splitlines html = [w1; w2] ++ (pre ++ [line] ++ post) ++ [w3; w4] →
  splitlines html' = [w1; w2] ++ (pre ++ post) ++ [w3; w4] →
  TOCParser.title (parse_line feed line) ≠ "" →
  getitem_attrs (TOCParser.attrs (parse_line feed line)) "href" = Raise KeyError →
  (∀ b, loop_body feed b line = Ok b) ∧
  TableOfContents_init feed html = TableOfContents_init feed html'.
Proof.
  intros Hl Hl' Ht Hk.
  assert (∀ b, loop_body feed b line = Ok b) as Hskip.
  { intros b. by apply loop_body_keyerror. }
  split; [done|].
  unfold TableOfContents_init, _parse_html_table_of_contents.
  rewrite Hl, Hl', !slice_2_m2_wrap. by rewrite for_lines_skip.
Qed.

Lemma line_without_href_is_skipped_witness :
  (∀ b, loop_body HTMLParser.feed b no_href_line = Ok b) ∧
  TableOfContents_init HTMLParser.feed
    (wrap ([anchor_item "#a" "A" +:+ "<ul>"] ++ [no_href_line] ++ ["</ul></li>"])) =
  TableOfContents_init HTMLParser.feed
    (wrap ([anchor_item "#a" "A" +:+ "<ul>"] ++ ["</ul></li>"])).
Proof.
  apply (line_without_href_is_skipped HTMLParser.feed _ _
           ("<div class=" +:+ dq +:+ "toc" +:+ dq +:+ ">") "<ul>"
           [anchor_item "#a" "A" +:+ "<ul>"] no_href_line ["</ul></li>"]
           "</ul>" "</div>").
  - vm_compute. reflexivity.
  - vm_compute. reflexivity.
  - vm_compute. discriminate.
  - vm_compute. reflexivity.
Defined.

(** C5.  When no parent is open after the lines [mid], a further line
    [</ul>] changes nothing: the builder is left as it is, the function
    returns without an error, and the result is the one of the input
    without that line.  The scanner is assumed to find no anchor text in
    the line [</ul>]. *)
Theorem extra_closing_ul_is_ignored feed html html' w1 w2 mid w3 w4 b :
  splitlines html = [w1; w2] ++ (mid ++ ["</ul>"] ++ []) ++ [w3; w4] →
  splitlines html' = [w1; w2] ++ (mid ++ []) ++ [w3; w4] →
  TOCParser.title (parse_line feed "</ul>") = "" →
  for_lines feed builder_init mid = Ok b →
  parents b = [] →
  loop_body feed b "</ul>" = Ok b ∧
  (∃ toc, TableOfContents_init feed html = Ok toc) ∧
  TableOfContents_init feed html = TableOfContents_init feed html'.
Proof.
  intros Hl Hl' Ht Hb Hp.
  pose proof (loop_body_closed feed b "</ul>" Ht Hp) as Hskip.
  split; [done|]. split.
  - destruct (parse_spec feed html) as (toc & _ & Htoc & _). by exists toc.
  - unfold TableOfContents_init, _parse_html_table_of_contents.
    rewrite Hl, Hl', !slice_2_m2_wrap, !for_lines_app, Hb. simpl.
    by rewrite Hskip.
Qed.

Lemma extra_closing_ul_is_ignored_witness :
  loop_body HTMLParser.feed
    {| store := [AnchorLink.init "A" (Some "#a")]; parents := []; ret := [0] |}
    "</ul>" =
  Ok {| store := [AnchorLink.init "A" (Some "#a")]; parents := []; ret := [0] |} ∧
  (∃ toc, TableOfContents_init HTMLParser.feed
            (wrap ([anchor_item "#a" "A" +:+ "<ul>"; "</ul></li>"] ++ ["</ul>"]))
          = Ok toc) ∧
  TableOfContents_init HTMLParser.feed
    (wrap ([anchor_item "#a" "A" +:+ "<ul>"; "</ul></li>"] ++ ["</ul>"])) =
  TableOfContents_init HTMLParser.feed
    (wrap [anchor_item "#a" "A" +:+ "<ul>"; "</ul></li>"]).
Proof.
  apply (extra_closing_ul_is_ignored HTMLParser.feed _ _
           ("<div class=" +:+ dq +:+ "toc" +:+ dq +:+ ">") "<ul>"
           [anchor_item "#a" "A" +:+ "<ul>"; "</ul></li>"] "</ul>" "</div>").
  - vm_compute. reflexivity.
  - vm_compute. reflexivity.
  - vm_compute. reflexivity.
  - vm_compute. reflexivity.
  - reflexivity.
Defined.

(** C6, as the claim states it, fails on a line with two anchors in
    sequence: the first anchor has href #x and text X, but the node of the
    line has url #y and title XY. *)
Lemma second_anchor_in_sequence_wins :
  first_anchor_attrs (HTMLParser.feed two_anchor_line) = Some [("href", Some "#x")] ∧
  first_anchor_text (HTMLParser.feed two_anchor_line) = "X" ∧
  (∃ toc,
     TableOfContents_init HTMLParser.feed (wrap [two_anchor_line]) = Ok toc ∧
     forest toc = Some [Node "XY" (Some "#y") [] (Some true)]) ∧
  ¬ first_anchor_honoured (HTMLParser.feed two_anchor_line).
Proof.
  split; [vm_compute; reflexivity|]. split; [vm_compute; reflexivity|]. split.
  - exists {| objects := [AnchorLink.mk "XY" (Some "#y") [] (Some true)];
              items := [0] |}.
    split; vm_compute; reflexivity.
  - intros [_ Htitle]. vm_compute in Htitle. discriminate Htitle.
Qed.

(** C6, amended.  With no anchor open before them, two anchors in sequence
    give the attributes of the second anchor and the text of both; a second
    anchor start tag met while the first is still open is ignored, so the
    attributes stay those of the first anchor, and the text of both is
    still accumulated. *)
Theorem anchors_on_one_line es ats1 text1 ats2 text2 :
  TOCParser.in_anchor (TOCParser.run_events TOCParser.init es) = false →
  let p0 := TOCParser.run_events TOCParser.init es in
  let sequence :=
    TOCParser.run_events TOCParser.init
      (es ++ [StartTag "a" ats1; Data text1; EndTag "a";
              StartTag "a" ats2; Data text2; EndTag "a"]) in
  let nested :=
    TOCParser.run_events TOCParser.init
      (es ++ [StartTag "a" ats1; Data text1;
              StartTag "a" ats2; Data text2; EndTag "a"]) in
  TOCParser.attrs sequence = Some (dict ats2) ∧
  TOCParser.title sequence = (TOCParser.title p0 +:+ text1) +:+ text2 ∧
  TOCParser.attrs nested = Some (dict ats1) ∧
  TOCParser.title nested = (TOCParser.title p0 +:+ text1) +:+ text2.
Proof.
  intros Hin. unfold TOCParser.run_events. rewrite !foldl_app.
  fold (TOCParser.run_events TOCParser.init es).
  cbn [foldl TOCParser.dispatch]. 
  unfold TOCParser.handle_starttag, TOCParser.handle_data,
    TOCParser.handle_endtag.
  rewrite Hin. simpl. done.
Qed.

Lemma anchors_on_one_line_witness :
  let es := [StartTag "li" []] in
  let ats1 := [("href", Some "#x")] in
  let ats2 := [("href", Some "#y")] in
  let p0 := TOCParser.run_events TOCParser.init es in
  let sequence :=
    TOCParser.run_events TOCParser.init
      (es ++ [StartTag "a" ats1; Data "X"; EndTag "a";
              StartTag "a" ats2; Data "Y"; EndTag "a"]) in
  let nested :=
    TOCParser.run_events TOCParser.init
      (es ++ [StartTag "a" ats1; Data "X";
              StartTag "a" ats2; Data "Y"; EndTag "a"]) in
  TOCParser.attrs sequence = Some (dict ats2) ∧
  TOCParser.title sequence = (TOCParser.title p0 +:+ "X") +:+ "Y" ∧
  TOCParser.attrs nested = Some (dict ats1) ∧
  TOCParser.title nested = (TOCParser.title p0 +:+ "X") +:+ "Y".
Proof.
  apply (anchors_on_one_line [StartTag "li" []] [("href", Some "#x")] "X"
           [("href", Some "#y")] "Y").
  reflexivity.
Defined.


(** C8.  Inside an anchor a character reference with code [code] adds the
    text [&#code;] to the title, and an entity reference with name [name]
    adds [&name;]: neither is decoded. *)
Theorem references_are_kept_verbatim p code name :
  TOCParser.in_anchor p = true →
  TOCParser.title (TOCParser.dispatch p (CharRef code)) =
    TOCParser.title p +:+ "&#" +:+ code +:+ ";" ∧
  TOCParser.title (TOCParser.dispatch p (EntityRef name)) =
    TOCParser.title p +:+ "&" +:+ name +:+ ";".
Proof.
  intros Hin. simpl.
  unfold TOCParser.handle_charref, TOCParser.handle_entityref,
    TOCParser.handle_data.
  rewrite Hin. done.
Qed.

Lemma references_are_kept_verbatim_witness :
  let p := TOCParser.mk true (Some ∅) "A " in
  TOCParser.title (TOCParser.dispatch p (CharRef "38")) = "A &#38;" ∧
  TOCParser.title (TOCParser.dispatch p (EntityRef "amp")) = "A &amp;".
Proof.
  apply (references_are_kept_verbatim (TOCParser.mk true (Some ∅) "A ")
           "38" "amp").
  reflexivity.
Defined.

(** The scanner hands both kinds of reference over undecoded, and the
    title keeps them as written. *)
Example references_in_a_line :
  TOCParser.title
    (parse_line HTMLParser.feed (anchor_item "#x" "A &amp; B &#38; C" +:+ "</li>"))
  = "A &amp; B &#38; C".
Proof. vm_compute. reflexivity. Qed.

(** C9.  An input of at most four lines has no middle line: the function
    returns an empty list, and no object is created. *)
Theorem at_most_four_lines_give_empty_forest feed html :
  length (splitlines html) ≤ 4 →
  TableOfContents_init feed html = Ok {| objects := []; items := [] |} ∧
  forest {| objects := []; items := [] |} = Some [].
Proof.
  intros Hlen. unfold TableOfContents_init, _parse_html_table_of_contents.
  by rewrite slice_2_m2_short.
Qed.

Lemma at_most_four_lines_give_empty_forest_witness :
  TableOfContents_init HTMLParser.feed
    (join_lines [anchor_item "#a" "A" +:+ "</li>"; anchor_item "#b" "B" +:+ "</li>";
                 anchor_item "#c" "C" +:+ "</li>"; anchor_item "#d" "D" +:+ "</li>"])
  = Ok {| objects := []; items := [] |} ∧
  forest {| objects := []; items := [] |} = Some [].
Proof.
  apply (at_most_four_lines_give_empty_forest HTMLParser.feed).
  vm_compute. lia.
Defined.



(** The whole function on an anchor with an empty href. *)
Example empty_href_forest :
  ∃ toc,
    TableOfContents_init HTMLParser.feed (wrap [empty_href_line]) = Ok toc ∧
    forest toc = Some [Node "T" (Some "") [] (Some true)].
Proof.
  exists {| objects := [AnchorLink.mk "T" (Some "") [] (Some true)];
            items := [0] |}.
  split; vm_compute; reflexivity.
Qed.

(** ** The loop on objects and the loop on values *)

Section Simulation.

Variable feed : string → list event.

(** One round of the loop on objects does what [value_step] does on the
    forest the objects denote. *)
Lemma loop_body_sim b line F :
  spine (store b) (parents b) (ret b) F →
  ∃ b',
    loop_body feed b line = Ok b' ∧
    spine (store b') (parents b') (ret b')
          (value_step feed (F, length (parents b)) line).1 ∧
    length (parents b') = (value_step feed (F, length (parents b)) line).2.
Proof.
  intros Hs. unfold loop_body, value_step.
  pose proof (parse_line_ok feed line) as Hok.
  destruct (String.eqb_spec (TOCParser.title (parse_line feed line)) "")
    as [Het|Hne]; cbn [negb].
  - destruct (startswith "</ul>" line); [|by exists b].
    rewrite truthy_last. destruct (last (parents b)) as [q|] eqn:Hl.
    + apply last_Some in Hl as [ps Hps]. rewrite Hps, pop_snoc. simpl.
      eexists. split; [done|]. simpl. rewrite Hps in Hs. split.
      * by eapply spine_pop.
      * rewrite length_app. simpl. lia.
    + apply last_None in Hl. exists b. rewrite Hl in *. by simpl.
  - destruct (Hok (or_intror Hne)) as [m Hm]. rewrite Hm. simpl.
    destruct (m !! "href") as [href|] eqn:Hhref; [|by exists b].
    set (new := AnchorLink.init (TOCParser.title (parse_line feed line)) href).
    set (nav := length (store b)).
    change (leaf (TOCParser.title (parse_line feed line)) href)
      with (Node (AnchorLink.title new) (AnchorLink.url new) []
                 (AnchorLink.active new)).
    rewrite truthy_last. destruct (last (parents b)) as [q|] eqn:Hl.
    + destruct (spine_last_lookup _ _ _ _ _ Hs Hl) as [nq Hnq].
      pose proof (lookup_lt_Some _ _ _ Hnq) as Hqlt.
      unfold getitem_last, deref. rewrite Hl. simpl.
      rewrite (lookup_app_l_Some _ _ _ _ Hnq). simpl.
      destruct (spine_attach (store b)
                  (<[q := AnchorLink.children_append nq nav]> (store b ++ [new]))
                  nav new 0 (parents b) (ret b) (ret b) F)
        as (F' & -> & _ & Hs1 & Hs2); try done.
      { rewrite list_lookup_insert_ne by (subst nav; lia).
        by rewrite list_lookup_middle. }
      { apply Forall_forall. lia. }
      { intros i _ Hi Hne'. rewrite list_lookup_insert_ne by congruence.
        by rewrite lookup_app_l. }
      { rewrite Hl. split; [done|]. exists nq. split; [done|].
        apply list_lookup_insert_eq. rewrite length_app. lia. }
      destruct (endswith "<ul>" line); simpl;
        (eexists; split; [done|]; simpl; split; [done|]);
        rewrite ?length_app; simpl; lia.
    + unfold getitem_last.
      destruct (spine_attach (store b) (store b ++ [new])
                  nav new 0 (parents b) (ret b) (ret b ++ [nav]) F)
        as (F' & -> & _ & Hs1 & Hs2); try done.
      { by rewrite list_lookup_middle. }
      { apply Forall_forall. lia. }
      { intros i _ Hi _. by rewrite lookup_app_l. }
      { by rewrite Hl. }
      destruct (endswith "<ul>" line); simpl;
        (eexists; split; [done|]; simpl; split; [done|]);
        rewrite ?length_app; simpl; lia.
Qed.

Lemma for_lines_sim lines : ∀ b F,
  spine (store b) (parents b) (ret b) F →
  ∃ b',
    for_lines feed b lines = Ok b' ∧
    spine (store b') (parents b') (ret b')
          (foldl (value_step feed) (F, length (parents b)) lines).1 ∧
    length (parents b') =
      (foldl (value_step feed) (F, length (parents b)) lines).2.
Proof.
  induction lines as [|line lines IH]; intros b F Hs; [by exists b|].
  destruct (loop_body_sim b line F Hs) as (b1 & Hstep & Hs1 & Hd1).
  destruct (IH b1 _ Hs1) as (b2 & Hrest & Hs2 & Hd2).
  exists b2. simpl for_lines. rewrite Hstep. simpl bind. simpl foldl.
  rewrite Hd1 in Hs2, Hd2. rewrite <- surjective_pairing in Hs2, Hd2.
  done.
Qed.

(** Marking the first item marks the root of the first tree. *)
Lemma mark_first_value b F :
  inv b →
  Forall2 (repr (store b)) (ret b) F →
  ∃ toc, mark_first b = Ok toc ∧
         Forall2 (repr (objects toc)) (items toc) (mark_root F).
Proof.
  intros (_ & _ & _ & _ & Hroots) Hs. unfold mark_first.
  destruct Hroots as [[Hr Hh]|(rest & Hr & Hrest)]; rewrite Hr in *.
  - apply Forall2_nil_inv_l in Hs as ->. by eexists.
  - apply Forall2_cons_inv_l in Hs as (t & Frest & Ht & HFrest & ->).
    inversion Ht as [a n ts Hn Hts]; subst a t. simpl.
    unfold deref. rewrite Hn. simpl. eexists. split; [done|]. simpl.
    pose proof (lookup_lt_Some _ _ _ Hn) as Hlt.
    set (h' := <[0 := AnchorLink.set_active n true]> (store b)).
    assert (∀ i m, 1 ≤ i → store b !! i = Some m → h' !! i = Some m) as Hag.
    { intros i m Hi Hm. subst h'. by rewrite list_lookup_insert_ne by lia. }
    constructor.
    + apply (repr_node h' 0 (AnchorLink.set_active n true)).
      * subst h'. by apply list_lookup_insert_eq.
      * simpl. eapply Forall2_impl; [exact Hts|]. intros c t [Hc Hr'].
        split; [done|]. apply (repr_frame _ _ _ _ Hr').
        intros i m Hi. apply Hag. lia.
    + apply (Forall2_repr_frame (store b) _ 1); [exact Hrest|done|done].
Qed.

(** The function computes [value_forest]: the store it returns reads back
    as the forest built on values. *)
Lemma parse_value html :
  ∃ toc,
    _parse_html_table_of_contents feed html = Ok toc ∧
    Forall2 (repr (objects toc)) (items toc) (value_forest feed html) ∧
    forest toc = Some (value_forest feed html).
Proof.
  unfold _parse_html_table_of_contents, value_forest.
  set (lines := slice_2_m2 (splitlines html)).
  destruct (for_lines_sim lines builder_init [])
    as (b & Hb & Hs & _); [constructor|].
  rewrite Hb. simpl bind. change (length (parents builder_init)) with 0 in Hs.
  pose proof (reachable_inv feed lines b Hb) as Hinv.
  apply spine_close in Hs.
  destruct (mark_first_value b _ Hinv Hs) as (toc & Hm & Hr).
  exists toc. split; [done|]. split; [done|].
  unfold forest. apply mapM_Some.
  eapply Forall2_impl; [exact Hr|]. intros c t Hc.
  apply repr_reify; [done|lia].
Qed.

End Simulation.


Lemma open_ok_pred d F : open_ok (S d) F → open_ok d F.
Proof.
  revert F. induction d as [|d IH]; intros F; [done|].
  intros (F0 & title & url & cs & a & -> & Hcs).
  exists F0, title, url, cs, a. split; [done|]. by apply IH.
Qed.

Lemma open_ok_attach d title url F :
  open_ok d F → open_ok (S d) (attach d (leaf title url) F).
Proof.
  revert F. induction d as [|d IH]; intros F Hd.
  - exists F, title, url, [], None. by split.
  - destruct Hd as (F0 & ti & u & cs & a & -> & Hcs).
    simpl attach. rewrite on_last_snoc. simpl with_children.
    eexists F0, ti, u, _, a. split; [done|]. by apply IH.
Qed.

Lemma outline_attach d title url F k :
  open_ok d F →
  concat (map (outline k) (attach d (leaf title url) F)) =
  concat (map (outline k) F) ++ [(k + d, title, url)].
Proof.
  revert F k. induction d as [|d IH]; intros F k Hd.
  - simpl. rewrite map_app, concat_app. simpl.
    by rewrite Nat.add_0_r.
  - destruct Hd as (F0 & ti & u & cs & a & -> & Hcs).
    simpl attach. rewrite on_last_snoc. simpl with_children.
    rewrite !map_app, !concat_app. simpl. rewrite (IH cs (S k) Hcs).
    rewrite !app_nil_r, <- !app_assoc. simpl.
    by replace (S (k + d)) with (k + S d) by lia.
Qed.

Lemma outline_mark_root F : forest_outline (mark_root F) = forest_outline F.
Proof. by destruct F as [|[] F]. Qed.

Section Outline.

Variable feed : string → list event.

(** The value loop and the counter loop run in step. *)
Lemma value_outline_sim lines : ∀ F d,
  open_ok d F →
  forest_outline (foldl (value_step feed) (F, d) lines).1 =
    (foldl (outline_step feed) (forest_outline F, d) lines).1 ∧
  (foldl (value_step feed) (F, d) lines).2 =
    (foldl (outline_step feed) (forest_outline F, d) lines).2.
Proof.
  induction lines as [|line lines IH]; intros F d Hd; [done|].
  simpl foldl. unfold value_step at 2 4, outline_step at 2 4. simpl fst. simpl snd.
  destruct (negb _).
  - destruct (getitem_attrs _ _) as [href|]; [|by apply IH].
    rewrite <- (outline_attach d _ href F 0 Hd).
    pose proof (open_ok_attach d (TOCParser.title (parse_line feed line)) href F Hd)
      as Hd'.
    destruct (endswith "<ul>" line); apply IH; [done|by apply open_ok_pred].
  - destruct (startswith "</ul>" line); [|by apply IH].
    apply IH. destruct d; [done|]. by apply open_ok_pred.
Qed.

Lemma value_forest_outline html :
  forest_outline (value_forest feed html) =
  lines_outline feed (slice_2_m2 (splitlines html)).
Proof.
  unfold value_forest, lines_outline. rewrite outline_mark_root.
  by apply (value_outline_sim _ [] 0).
Qed.

End Outline.

(** ** Rendering an outline *)

Lemma concat_str_cons s l : concat_str (s :: l) = s +:+ concat_str l.
Proof. reflexivity. Qed.




Lemma run_events_cons p e es :
  TOCParser.run_events p (e :: es) =
  TOCParser.run_events (TOCParser.dispatch p e) es.
Proof. reflexivity. Qed.

Lemma run_events_app p es1 es2 :
  TOCParser.run_events p (es1 ++ es2) =
  TOCParser.run_events (TOCParser.run_events p es1) es2.
Proof. apply foldl_app. Qed.

(** Outside an anchor, calls that open none leave the parser as it is. *)
Lemma closed_stays p es :
  TOCParser.in_anchor p = false →
  no_anchor_open es = true →
  TOCParser.run_events p es = p.
Proof.
  intros Hin. induction es as [|e es IH]; [done|].
  intros [He Hes]%andb_prop. rewrite run_events_cons.
  assert (TOCParser.dispatch p e = p) as ->; [|by apply IH].
  destruct p as [ia ats0 ti]. simpl in Hin. subst ia.
  destruct e; try done; simpl;
    unfold TOCParser.handle_startendtag, TOCParser.handle_starttag,
      TOCParser.handle_endtag; simpl;
    unfold is_anchor in He; by destruct (String.eqb tag "a").
Qed.

(** Inside an anchor, calls that close none only add their text. *)
Lemma open_accumulates es : ∀ p,
  TOCParser.in_anchor p = true →
  no_anchor_close es = true →
  TOCParser.run_events p es =
  TOCParser.mk true (TOCParser.attrs p) (TOCParser.title p +:+ events_text es).
Proof.
  induction es as [|e es IH]; intros p Hin Hes.
  - destruct p as [ia ats0 ti]. simpl in *. subst ia.
    unfold events_text. simpl. by rewrite append_empty_r.
  - apply andb_prop in Hes as [He Hes]. rewrite run_events_cons.
    assert (TOCParser.dispatch p e =
            TOCParser.mk true (TOCParser.attrs p)
                         (TOCParser.title p +:+ event_text e)) as ->.
    { destruct p as [ia ats0 ti]. simpl in Hin. subst ia.
      destruct e; simpl; rewrite ?append_empty_r; try done;
        unfold TOCParser.handle_startendtag, TOCParser.handle_starttag,
          TOCParser.handle_endtag; simpl;
        unfold is_anchor in He; by destruct (String.eqb tag "a"). }
    rewrite IH by done. simpl. unfold events_text.
    cbn [map]. by rewrite concat_str_cons, append_assoc.
Qed.

Lemma dict_app l1 l2 :
  dict (l1 ++ l2) = foldl (λ m kv, <[kv.1 := kv.2]> m) (dict l1) l2.
Proof. apply foldl_app. Qed.

Lemma foldl_insert_other (l : list (string * option string))
    (m : gmap string (option string)) (k : string) :
  k ∉ l.*1 →
  foldl (λ m kv, <[kv.1 := kv.2]> m) m l !! k = m !! k.
Proof.
  revert m. induction l as [|[k' v'] l IH]; intros m Hk; [done|].
  simpl in *. apply not_elem_of_cons in Hk as [Hne Hk].
  rewrite IH by done. by rewrite lookup_insert_ne.
Qed.

(** * Further properties *)

(** X1.  The function computes the forest that the same loop builds on
    values: each valid anchor line appends a new node below the innermost
    open parent (to the forest itself when none is open), a line ending in
    [<ul>] opens its node, an untitled line starting with [</ul>] closes
    the innermost open parent, and at the end the first root is marked
    active. *)
Theorem construction_builds_value_forest feed html :
  ∃ toc,
    TableOfContents_init feed html = Ok toc ∧
    forest toc = Some (value_forest feed html).
Proof.
  destruct (parse_value feed html) as (toc & Hp & _ & HF). by exists toc.
Qed.

(** X2.  The nodes of the tree, read in document order with their depths,
    are the valid anchor lines in input order: each with the title and
    href of its line, at a depth equal to the number of parents open when
    the line is read. *)
Theorem forest_outline_follows_lines feed html :
  ∃ toc F,
    TableOfContents_init feed html = Ok toc ∧
    forest toc = Some F ∧
    forest_outline F = lines_outline feed (slice_2_m2 (splitlines html)).
Proof.
  destruct (parse_value feed html) as (toc & Hp & _ & HF).
  exists toc, (value_forest feed html). split_and!; [done|done|].
  apply value_forest_outline.
Qed.


(** X4.  After any lines, the length of the [parents] stack is the counter
    that goes up by one after a valid anchor line ending in [<ul>] and
    down by one, but not below zero, at an untitled line starting with
    [</ul>]. *)
Theorem open_parents_follow_counter feed lines b :
  for_lines feed builder_init lines = Ok b →
  length (parents b) = open_depth feed lines.
Proof.
  intros Hb.
  destruct (for_lines_sim feed lines builder_init [])
    as (b' & Hb' & _ & Hd); [constructor|].
  rewrite Hb in Hb'. injection Hb' as <-. rewrite Hd.
  by apply (value_outline_sim feed lines [] 0).
Qed.

Lemma open_parents_follow_counter_witness :
  length (parents {| store := [AnchorLink.mk "A" (Some "#a") [1] None;
                               AnchorLink.mk "B" (Some "#b") [] None];
                     parents := [0; 1]; ret := [0] |})
  = open_depth HTMLParser.feed
      [anchor_item "#a" "A" +:+ "<ul>"; anchor_item "#b" "B" +:+ "<ul>"].
Proof.
  apply (open_parents_follow_counter HTMLParser.feed
           [anchor_item "#a" "A" +:+ "<ul>"; anchor_item "#b" "B" +:+ "<ul>"]).
  vm_compute. reflexivity.
Defined.

(** X5.  Whatever calls a parser receives, a title that is not empty comes
    with attributes: [attrs] is a dict and not [None], so reading
    [attrs['href']] can only fail with KeyError. *)
Theorem title_implies_attrs es :
  TOCParser.title (TOCParser.run_events TOCParser.init es) ≠ "" →
  ∃ m, TOCParser.attrs (TOCParser.run_events TOCParser.init es) = Some m ∧
       getitem_attrs (TOCParser.attrs (TOCParser.run_events TOCParser.init es))
                     "href"
       ≠ Raise TypeError.
Proof.
  intros Ht.
  destruct (run_events_ok TOCParser.init es init_ok (or_intror Ht)) as [m Hm].
  exists m. split; [done|]. rewrite Hm. simpl. by destruct (m !! "href").
Qed.

Lemma title_implies_attrs_witness :
  ∃ m, TOCParser.attrs
         (TOCParser.run_events TOCParser.init
            [StartTag "a" []; Data "T"; EndTag "a"]) = Some m ∧
       getitem_attrs
         (TOCParser.attrs
            (TOCParser.run_events TOCParser.init
               [StartTag "a" []; Data "T"; EndTag "a"])) "href"
       ≠ Raise TypeError.
Proof.
  apply (title_implies_attrs [StartTag "a" []; Data "T"; EndTag "a"]).
  vm_compute. discriminate.
Defined.

(** X6.  A line with one anchor: when no call before or after the anchor
    opens another one and no call inside it closes it, the title is the
    text of the calls inside the anchor, with the tags inside it dropped
    and every reference written back as [&#code;] or [&name;], and the
    attributes are those of the anchor's start tag. *)
Theorem single_anchor_title_and_attrs pre ats body post :
  no_anchor_open pre = true →
  no_anchor_close body = true →
  no_anchor_open post = true →
  TOCParser.run_events TOCParser.init
    (pre ++ [StartTag "a" ats] ++ body ++ [EndTag "a"] ++ post)
  = TOCParser.mk false (Some (dict ats)) (events_text body).
Proof.
  intros Hpre Hbody Hpost.
  rewrite run_events_app, (closed_stays _ pre) by done.
  change ([StartTag "a" ats] ++ body ++ [EndTag "a"] ++ post)
    with (StartTag "a" ats :: body ++ EndTag "a" :: post).
  rewrite run_events_cons.
  change (TOCParser.dispatch TOCParser.init (StartTag "a" ats))
    with (TOCParser.mk true (Some (dict ats)) "").
  rewrite run_events_app, (open_accumulates body) by done.
  rewrite run_events_cons. by rewrite closed_stays.
Qed.

Lemma single_anchor_title_and_attrs_witness :
  TOCParser.run_events TOCParser.init
    ([StartTag "li" []] ++ [StartTag "a" [("href", Some "#x")]]
     ++ [StartTag "code" []; Data "f"; EndTag "code"; Data " "; EntityRef "amp"]
     ++ [EndTag "a"] ++ [EndTag "li"])
  = TOCParser.mk false (Some (dict [("href", Some "#x")]))
      (events_text [StartTag "code" []; Data "f"; EndTag "code"; Data " ";
                    EntityRef "amp"]).
Proof.
  apply (single_anchor_title_and_attrs [StartTag "li" []]
           [("href", Some "#x")]
           [StartTag "code" []; Data "f"; EndTag "code"; Data " "; EntityRef "amp"]
           [EndTag "li"]); reflexivity.
Defined.

(** X7.  A line without an anchor start tag never creates a node: it
    closes the innermost open parent when it starts with [</ul>] (nothing
    happens when none is open), and otherwise it changes nothing. *)
Theorem line_without_anchor feed b line :
  no_anchor_open (feed line) = true →
  loop_body feed b line =
  Ok (if startswith "</ul>" line
      then {| store := store b; parents := removelast (parents b);
              ret := ret b |}
      else b).
Proof.
  intros Hno. unfold loop_body, parse_line.
  rewrite closed_stays by done. simpl.
  destruct (startswith "</ul>" line); [|done].
  destruct b as [h ps r]. simpl. by destruct ps.
Qed.

Lemma line_without_anchor_witness :
  loop_body HTMLParser.feed
    {| store := [AnchorLink.mk "A" (Some "#a") [] None];
       parents := [0]; ret := [0] |} "</ul></li>"
  = Ok {| store := [AnchorLink.mk "A" (Some "#a") [] None];
          parents := []; ret := [0] |}.
Proof.
  apply (line_without_anchor HTMLParser.feed
           {| store := [AnchorLink.mk "A" (Some "#a") [] None];
              parents := [0]; ret := [0] |} "</ul></li>").
  vm_compute. reflexivity.
Defined.

(** X8.  A line that is not a valid anchor (no title, or a title without
    href) never touches the tree: the loop body returns, and the store and
    [ret] are as before. *)
Theorem invalid_line_keeps_the_tree feed b line :
  valid_anchor feed line = false →
  ∃ b', loop_body feed b line = Ok b' ∧ store b' = store b ∧ ret b' = ret b.
Proof.
  unfold valid_anchor, has_href, loop_body. intros Hv.
  pose proof (parse_line_ok feed line) as Hok.
  destruct (String.eqb_spec (TOCParser.title (parse_line feed line)) "")
    as [Het|Hne]; simpl in *.
  - destruct (startswith "</ul>" line); [|by exists b].
    destruct (parents b) as [|p ps]; [by exists b|]. simpl. by eexists.
  - destruct (Hok (or_intror Hne)) as [m Hm]. rewrite Hm in *. simpl.
    destruct (m !! "href"); [|by exists b].
    by rewrite bool_decide_eq_true_2 in Hv by eauto.
Qed.

Lemma invalid_line_keeps_the_tree_witness :
  ∃ b', loop_body HTMLParser.feed builder_init no_href_line = Ok b' ∧
        store b' = store builder_init ∧ ret b' = ret builder_init.
Proof.
  apply (invalid_line_keeps_the_tree HTMLParser.feed builder_init no_href_line).
  vm_compute. reflexivity.
Defined.

(** X9.  The two lines at either end are never parsed: two inputs with the
    same lines in between give the same result, whatever their first two
    and last two lines are. *)
Theorem wrapper_lines_are_not_parsed feed html html' w1 w2 w3 w4 v1 v2 v3 v4 mid :
  splitlines html = [w1; w2] ++ mid ++ [w3; w4] →
  splitlines html' = [v1; v2] ++ mid ++ [v3; v4] →
  TableOfContents_init feed html = TableOfContents_init feed html'.
Proof.
  intros Hl Hl'. unfold TableOfContents_init, _parse_html_table_of_contents.
  by rewrite Hl, Hl', !slice_2_m2_wrap.
Qed.

Lemma wrapper_lines_are_not_parsed_witness :
  TableOfContents_init HTMLParser.feed scenario_html =
  TableOfContents_init HTMLParser.feed
    (join_lines ([anchor_item "#v" "V" +:+ "</li>"; "</ul>"] ++ scenario_lines
                 ++ ["<ul>"; anchor_item "#w" "W" +:+ "</li>"])).
Proof.
  apply (wrapper_lines_are_not_parsed HTMLParser.feed _ _
           ("<div class=" +:+ dq +:+ "toc" +:+ dq +:+ ">") "<ul>" "</ul>" "</div>"
           (anchor_item "#v" "V" +:+ "</li>") "</ul>"
           "<ul>" (anchor_item "#w" "W" +:+ "</li>") scenario_lines).
  - vm_compute. reflexivity.
  - vm_compute. reflexivity.
Defined.

(** X10.  When an attribute occurs more than once in the start tag of an
    anchor, the last occurrence is the one kept: [dict(attrs)] lets a
    later pair replace an earlier one. *)
Theorem last_attribute_wins p ats k v rest :
  TOCParser.in_anchor p = false →
  k ∉ rest.*1 →
  getitem_attrs
    (TOCParser.attrs (TOCParser.handle_starttag p "a" (ats ++ (k, v) :: rest))) k
  = Ok v.
Proof.
  intros Hin Hk. unfold TOCParser.handle_starttag. rewrite Hin. simpl.
  rewrite dict_app. simpl. rewrite foldl_insert_other by done.
  by rewrite lookup_insert_eq.
Qed.

Lemma last_attribute_wins_witness :
  getitem_attrs
    (TOCParser.attrs
       (TOCParser.handle_starttag TOCParser.init "a"
          ([("href", Some "#x")] ++ ("href", Some "#y") :: [("class", Some "c")])))
    "href"
  = Ok (Some "#y").
Proof.
  apply (last_attribute_wins TOCParser.init [("href", Some "#x")] "href"
           (Some "#y") [("class", Some "c")]).
  - reflexivity.
  - compute_done.
Defined.

